(** * Dynamic HTTP resource handlers of [src/main.c]

    A shallow embedding of the three dynamic-resource callbacks of the
    sample ([echo_handler], [uptime_handler], [led_handler]) together with
    [parse_led_post], and the properties of the streaming contract they
    implement.

    Conventions of the embedding.
    - A [static] local of a handler is a field of that handler's [*_statics]
      record; a handler takes the record and returns the updated one.
    - [response_ctx] is an in/out parameter: the handler receives the
      response context prepared by the server and returns it, updated or
      untouched.  A handler that leaves it untouched has produced no
      response for that call.
    - [size_t] is the 32-bit unsigned type of the Cortex-M4 target; sums of
      [size_t] values are reduced modulo [2^32].
    - A pointer/length pair denotes the slice of that length at the pointer.
    - The [LOG_*] macros (and the [print_str] scratch text that only feeds
      [LOG_HEXDUMP_DBG]) write to the logging subsystem only; they are left
      out, as are the [client] and [user_data] arguments, which the three
      callbacks read for logging only or not at all. *)

From Stdlib Require Import ZArith List Lia Bool.
From Stdlib.Strings Require Import Byte String.
From Stdlib Require Import DecimalString.
Import ListNotations.
Open Scope Z_scope.

(** ** Machine integers and constants *)

Definition SIZE_WIDTH : Z := 32.
Definition SIZE_MAX : Z := 2 ^ SIZE_WIDTH - 1.

(** Unsigned [size_t] addition. *)
Definition size_add (a b : Z) : Z := (a + b) mod 2 ^ SIZE_WIDTH.

(** Conversion of an [int] to [uint32_t] (the LED index of the driver API). *)
Definition to_uint32 (x : Z) : Z := x mod 2 ^ 32.

(** [errno] values of the C library used by the target. *)
Definition ENOMEM : Z := 12.
Definition EINVAL : Z := 22.

Definition BIT (n : Z) : Z := Z.shiftl 1 n.
Definition BIT_MASK (n : Z) : Z := Z.shiftl 1 n - 1.

(** ** Transport interface *)

Inductive http_data_status : Type :=
| HTTP_SERVER_DATA_ABORTED
| HTTP_SERVER_DATA_MORE
| HTTP_SERVER_DATA_FINAL.

Definition status_eqb (a b : http_data_status) : bool :=
  match a, b with
  | HTTP_SERVER_DATA_ABORTED, HTTP_SERVER_DATA_ABORTED => true
  | HTTP_SERVER_DATA_MORE, HTTP_SERVER_DATA_MORE => true
  | HTTP_SERVER_DATA_FINAL, HTTP_SERVER_DATA_FINAL => true
  | _, _ => false
  end.

(** The fields of [struct http_request_ctx] the callbacks read. *)
Record http_request_ctx : Type := {
  data : list byte;
  data_len : Z
}.

(** The fields of [struct http_response_ctx] the callbacks write.  [body] is
    the memory the pointer designates, [body_len] the number of bytes of it
    that make up the response body. *)
Record http_response_ctx : Type := {
  body : list byte;
  body_len : Z;
  final_chunk : bool
}.

(** The response context as the server hands it to a callback. *)
Definition empty_response : http_response_ctx :=
  {| body := []; body_len := 0; final_chunk := false |}.

(** A request context as the transport builds it: the length field is the
    length of the payload, and adding the capacity of the LED accumulator to
    it does not leave [size_t]. *)
Definition request_ok (r : http_request_ctx) : Prop :=
  data_len r = Z.of_nat (List.length (data r)) /\ data_len r + 32 <= SIZE_MAX.

Definition mk_request (payload : list byte) : http_request_ctx :=
  {| data := payload; data_len := Z.of_nat (List.length payload) |}.

(** ** Driver interface *)

Definition device : Type := string.

Inductive actuator_call : Type :=
| led_on (dev : device) (led : Z)
| led_off (dev : device) (led : Z).

(** What one invocation of a callback yields: the [int] it returns, the
    response context, the callback's statics and the driver calls it made. *)
Record outcome (S : Type) : Type := {
  retval : Z;
  response : http_response_ctx;
  statics : S;
  calls : list actuator_call
}.
Arguments retval {S} _.
Arguments response {S} _.
Arguments statics {S} _.
Arguments calls {S} _.

Definition chunk_event : Type := (http_data_status * http_request_ctx)%type.

Definition callback (S : Type) : Type :=
  S -> http_data_status -> http_request_ctx -> http_response_ctx -> outcome S.

(** Delivery of successive chunk events to one resource: the statics are
    carried from call to call, every call gets a cleared response context. *)
Fixpoint deliver {S : Type} (cb : callback S) (st : S) (evs : list chunk_event)
  : list (outcome S) :=
  match evs with
  | [] => []
  | (status, req) :: evs' =>
      let o := cb st status req empty_response in
      o :: deliver cb (statics o) evs'
  end.

(** The statics a resource holds after a run of events. *)
Definition final_statics {S : Type} (st : S) (os : list (outcome S)) : S :=
  List.fold_left (fun _ o => statics o) os st.

(** ** [echo_handler] *)

(** The [static size_t processed] counter.  The [__ASSERT_NO_MSG] line of
    the function names no variable in scope, so the file builds only with
    assertions disabled, where the macro expands to nothing. *)
Record echo_statics : Type := { processed : Z }.

Definition echo_handler : callback echo_statics :=
  fun st status request_ctx response_ctx =>
    if status_eqb status HTTP_SERVER_DATA_ABORTED then
      {| retval := 0;
         response := response_ctx;
         statics := {| processed := 0 |};
         calls := [] |}
    else
      let processed1 := size_add (processed st) (data_len request_ctx) in
      let processed2 :=
        if status_eqb status HTTP_SERVER_DATA_FINAL then 0 else processed1 in
      {| retval := 0;
         response := {| body := data request_ctx;
                        body_len := data_len request_ctx;
                        final_chunk := status_eqb status HTTP_SERVER_DATA_FINAL |};
         statics := {| processed := processed2 |};
         calls := [] |}.

(** ** [uptime_handler] *)

Record uptime_statics : Type := { uptime_buf : list byte }.

Section Uptime.

(** [sizeof(STRINGIFY(INT64_MAX))]: the macro text comes from the C
    library's [stdint.h]. *)
Variable sizeof_uptime_buf : Z.

(** [snprintf(buf, size, "%" PRId64, v)] of the C library: the [int] it
    returns and the content it leaves in [buf]. *)
Variable snprintf_PRId64 : list byte -> Z -> Z -> Z * list byte.

(** [k_uptime_get()] at the time of the call. *)
Variable k_uptime_get : Z.

Definition uptime_handler : callback uptime_statics :=
  fun st status request_ctx response_ctx =>
    if status_eqb status HTTP_SERVER_DATA_FINAL then
      let '(ret, buf') :=
        snprintf_PRId64 (uptime_buf st) sizeof_uptime_buf k_uptime_get in
      if ret <? 0 then
        {| retval := ret;
           response := response_ctx;
           statics := {| uptime_buf := buf' |};
           calls := [] |}
      else
        {| retval := 0;
           response := {| body := buf'; body_len := ret; final_chunk := true |};
           statics := {| uptime_buf := buf' |};
           calls := [] |}
    else
      {| retval := 0; response := response_ctx; statics := st; calls := [] |}.

End Uptime.

(** ** The LED command and its JSON descriptor *)

Record led_command : Type := { led_num : Z; led_state : bool }.

Inductive json_tokens : Type :=
| JSON_TOK_OBJECT_START
| JSON_TOK_OBJECT_END
| JSON_TOK_STRING
| JSON_TOK_COLON
| JSON_TOK_COMMA
| JSON_TOK_NUMBER
| JSON_TOK_TRUE
| JSON_TOK_FALSE
| JSON_TOK_NULL
| JSON_TOK_ERROR
| JSON_TOK_EOF.

(** [offsetof(struct led_command, _)]: the member a descriptor stores to. *)
Inductive led_command_member : Type :=
| offsetof_led_num
| offsetof_led_state.

(** [JSON_OBJ_DESCR_PRIM(struct_, field_name_, type_)]. *)
Record json_obj_descr : Type := {
  field_name : string;
  offset : led_command_member;
  type : json_tokens
}.

Definition led_command_descr : list json_obj_descr :=
  [ {| field_name := "led_num"; offset := offsetof_led_num; type := JSON_TOK_NUMBER |};
    {| field_name := "led_state"; offset := offsetof_led_state; type := JSON_TOK_TRUE |} ].

Definition ARRAY_SIZE {A : Type} (a : list A) : Z := Z.of_nat (List.length a).

(** ** [parse_led_post] and [led_handler] *)

Record led_statics : Type := {
  post_payload_buf : list byte;
  cursor : Z
}.

Definition sizeof_post_payload_buf : Z := 32.

(** The statics at start-up: a zeroed buffer and a zero cursor. *)
Definition led_statics_init : led_statics :=
  {| post_payload_buf := List.repeat x00 32; cursor := 0 |}.

(** [memcpy(dst + off, src, n)] on a buffer held as the list of its bytes. *)
Definition memcpy (dst : list byte) (off : Z) (src : list byte) (n : Z) : list byte :=
  List.firstn (Z.to_nat off) dst
    ++ List.firstn (Z.to_nat n) src
    ++ List.skipn (Z.to_nat (off + n)) dst.

Section Led.

(** [DEVICE_DT_GET_ANY(gpio_leds)]: [None] is the [NULL] the macro yields
    when the devicetree has no such node. *)
Variable leds_dev : option device.

(** [json_obj_parse(payload, len, descr, descr_len, &cmd)] of the JSON
    library, on the slice [payload[0..len)]: the value it returns and the
    content it leaves in [cmd]. *)
Variable json_obj_parse : list byte -> list json_obj_descr -> Z -> Z * led_command.

Definition parse_led_post (buf : list byte) (len : Z) : list actuator_call :=
  let expected_return_code := BIT_MASK (ARRAY_SIZE led_command_descr) in
  let '(ret, cmd) :=
    json_obj_parse (List.firstn (Z.to_nat len) buf)
                   led_command_descr (ARRAY_SIZE led_command_descr) in
  if negb (ret =? expected_return_code) then
    []
  else
    match leds_dev with
    | Some dev =>
        if led_state cmd then [led_on dev (to_uint32 (led_num cmd))]
        else [led_off dev (to_uint32 (led_num cmd))]
    | None => []
    end.

Definition led_handler : callback led_statics :=
  fun st status request_ctx response_ctx =>
    if status_eqb status HTTP_SERVER_DATA_ABORTED then
      {| retval := 0;
         response := response_ctx;
         statics := {| post_payload_buf := post_payload_buf st; cursor := 0 |};
         calls := [] |}
    else if size_add (data_len request_ctx) (cursor st) >? sizeof_post_payload_buf then
      {| retval := - ENOMEM;
         response := response_ctx;
         statics := {| post_payload_buf := post_payload_buf st; cursor := 0 |};
         calls := [] |}
    else
      let buf1 :=
        memcpy (post_payload_buf st) (cursor st)
               (data request_ctx) (data_len request_ctx) in
      let cursor1 := size_add (cursor st) (data_len request_ctx) in
      if status_eqb status HTTP_SERVER_DATA_FINAL then
        {| retval := 0;
           response := response_ctx;
           statics := {| post_payload_buf := buf1; cursor := 0 |};
           calls := parse_led_post buf1 cursor1 |}
      else
        {| retval := 0;
           response := response_ctx;
           statics := {| post_payload_buf := buf1; cursor := cursor1 |};
           calls := [] |}.

End Led.

(** The statics the accumulator invariant speaks of: a cursor within the
    buffer, and a buffer of the declared size. *)
Definition led_statics_ok (st : led_statics) : Prop :=
  0 <= cursor st <= sizeof_post_payload_buf
  /\ Z.of_nat (List.length (post_payload_buf st)) = sizeof_post_payload_buf.

(** The events of one logical request whose body arrives as [chunks] then
    [last]: [MORE] for every chunk but the last, [FINAL] for the last. *)
Definition request_events (chunks : list (list byte)) (last : list byte)
  : list chunk_event :=
  List.map (fun c => (HTTP_SERVER_DATA_MORE, mk_request c)) chunks
    ++ [(HTTP_SERVER_DATA_FINAL, mk_request last)].

(** All driver calls of a run, in order. *)
Definition all_calls {S : Type} (os : list (outcome S)) : list actuator_call :=
  List.concat (List.map calls os).

(** ** Reference models of the two library routines

    [json_obj_parse] and [snprintf] are library code outside [src/]; the
    handlers above take them as parameters, and every general statement
    below holds for any decoder and any formatter.  The two models here are
    instances to run the handlers on concrete bodies. *)

Record json_token : Type := { tok_type : json_tokens; tok_text : list byte }.

Definition mk_token (t : json_tokens) (text : list byte) : json_token :=
  {| tok_type := t; tok_text := text |}.

Definition is_space (c : byte) : bool :=
  match c with
  | x20 | x09 | x0a | x0b | x0c | x0d => true
  | _ => false
  end.

Definition is_digit (c : byte) : bool :=
  (N.leb 48 (Byte.to_N c) && N.leb (Byte.to_N c) 57)%bool.

Fixpoint bytes_eqb (a b : list byte) : bool :=
  match a, b with
  | [], [] => true
  | x :: a', y :: b' => Byte.eqb x y && bytes_eqb a' b'
  | _, _ => false
  end.

(** The longest prefix of digits, and what follows it. *)
Fixpoint digit_run (cs : list byte) : list byte * list byte :=
  match cs with
  | c :: cs' =>
      if is_digit c then let '(ds, rest) := digit_run cs' in (c :: ds, rest)
      else ([], cs)
  | [] => ([], [])
  end.

(** The text of a string up to its closing quote; no escapes. *)
Fixpoint lexer_string (cs : list byte) : option (list byte * list byte) :=
  match cs with
  | [] => None
  | c :: cs' =>
      if Byte.eqb c x22 then Some ([], cs')
      else if Byte.eqb c x5c then None
      else match lexer_string cs' with
           | Some (s, rest) => Some (c :: s, rest)
           | None => None
           end
  end.

(** [lit] read off the front of [cs]. *)
Fixpoint accept_run (lit cs : list byte) : option (list byte) :=
  match lit, cs with
  | [], _ => Some cs
  | l :: lit', c :: cs' => if Byte.eqb l c then accept_run lit' cs' else None
  | _ :: _, [] => None
  end.

Definition lexer_literal (t : json_tokens) (c : byte) (tail : string) (cs : list byte)
  : json_token * list byte :=
  match accept_run (list_byte_of_string tail) cs with
  | Some rest => (mk_token t (c :: list_byte_of_string tail), rest)
  | None => (mk_token JSON_TOK_ERROR [], [])
  end.

(** The next token of [cs] and the input left after it. *)
Fixpoint lexer_next (cs : list byte) : json_token * list byte :=
  match cs with
  | [] => (mk_token JSON_TOK_EOF [], [])
  | c :: cs' =>
      match c with
      | x7b => (mk_token JSON_TOK_OBJECT_START [c], cs')
      | x7d => (mk_token JSON_TOK_OBJECT_END [c], cs')
      | x2c => (mk_token JSON_TOK_COMMA [c], cs')
      | x3a => (mk_token JSON_TOK_COLON [c], cs')
      | x22 =>
          match lexer_string cs' with
          | Some (s, rest) => (mk_token JSON_TOK_STRING s, rest)
          | None => (mk_token JSON_TOK_ERROR [], [])
          end
      | x6e => lexer_literal JSON_TOK_NULL c "ull" cs'
      | x74 => lexer_literal JSON_TOK_TRUE c "rue" cs'
      | x66 => lexer_literal JSON_TOK_FALSE c "alse" cs'
      | x2d =>
          match digit_run cs' with
          | ([], _) => (mk_token JSON_TOK_ERROR [], [])
          | (ds, rest) => (mk_token JSON_TOK_NUMBER (c :: ds), rest)
          end
      | _ =>
          if is_space c then lexer_next cs'
          else if is_digit c then
            let '(ds, rest) := digit_run cs' in
            (mk_token JSON_TOK_NUMBER (c :: ds), rest)
          else (mk_token JSON_TOK_ERROR [], [])
      end
  end.

(** The tokens of [cs] up to and including the first end-of-input or error. *)
Fixpoint tokenize (fuel : nat) (cs : list byte) : list json_token :=
  match fuel with
  | O => [mk_token JSON_TOK_ERROR []]
  | S fuel' =>
      let '(t, rest) := lexer_next cs in
      match tok_type t with
      | JSON_TOK_EOF | JSON_TOK_ERROR => [t]
      | _ => t :: tokenize fuel' rest
      end
  end.

Definition digit_value (c : byte) : Z := Z.of_N (Byte.to_N c) - 48.

Definition decimal_value (ds : list byte) : Z :=
  List.fold_left (fun acc c => 10 * acc + digit_value c) ds 0.

(** The [int] a number token denotes; [None] when it does not fit. *)
Definition decode_num (text : list byte) : option Z :=
  let v := match text with
           | x2d :: ds => - decimal_value ds
           | _ => decimal_value text
           end in
  if (- 2 ^ 31 <=? v) && (v <=? 2 ^ 31 - 1) then Some v else None.

Definition equivalent_types (a b : json_tokens) : bool :=
  match a, b with
  | (JSON_TOK_TRUE | JSON_TOK_FALSE), (JSON_TOK_TRUE | JSON_TOK_FALSE) => true
  | JSON_TOK_NUMBER, JSON_TOK_NUMBER => true
  | JSON_TOK_STRING, JSON_TOK_STRING => true
  | JSON_TOK_NULL, JSON_TOK_NULL => true
  | _, _ => false
  end.

(** Storing a decoded value to the member the descriptor names. *)
Definition decode_value (d : json_obj_descr) (value : json_token) (cmd : led_command)
  : Z + led_command :=
  match type d, offset d with
  | JSON_TOK_NUMBER, offsetof_led_num =>
      match decode_num (tok_text value) with
      | Some n => inr {| led_num := n; led_state := led_state cmd |}
      | None => inl (- EINVAL)
      end
  | (JSON_TOK_TRUE | JSON_TOK_FALSE), offsetof_led_state =>
      inr {| led_num := led_num cmd;
             led_state := match tok_type value with JSON_TOK_TRUE => true | _ => false end |}
  | _, _ => inl (- EINVAL)
  end.

(** The first descriptor, from index [i] on, that is not decoded yet and is
    named [key]. *)
Fixpoint find_descr (descr : list json_obj_descr) (i : Z) (decoded : Z) (key : list byte)
  : option (Z * json_obj_descr) :=
  match descr with
  | [] => None
  | d :: descr' =>
      if Z.testbit decoded i then find_descr descr' (i + 1) decoded key
      else if bytes_eqb key (list_byte_of_string (field_name d)) then Some (i, d)
      else find_descr descr' (i + 1) decoded key
  end.

Definition is_primitive (t : json_tokens) : bool :=
  match t with
  | JSON_TOK_STRING | JSON_TOK_NUMBER | JSON_TOK_TRUE | JSON_TOK_FALSE | JSON_TOK_NULL => true
  | _ => false
  end.

(** One [key : value] member: an error code, or the decoded-field mask and
    the command after it. *)
Definition obj_member (descr : list json_obj_descr) (key colon value : json_token)
    (decoded : Z) (cmd : led_command) : Z + (Z * led_command) :=
  match tok_type key, tok_type colon with
  | JSON_TOK_STRING, JSON_TOK_COLON =>
      match find_descr descr 0 decoded (tok_text key) with
      | Some (i, d) =>
          if equivalent_types (tok_type value) (type d) then
            match decode_value d value cmd with
            | inl e => inl e
            | inr cmd' => inr (Z.lor decoded (BIT i), cmd')
            end
          else inl (- EINVAL)
      | None =>
          if is_primitive (tok_type value) then inr (decoded, cmd) else inl (- EINVAL)
      end
  | _, _ => inl (- EINVAL)
  end.

Fixpoint obj_parse (descr : list json_obj_descr) (toks : list json_token)
    (decoded : Z) (cmd : led_command) : Z * led_command :=
  match toks with
  | [] => (- EINVAL, cmd)
  | t :: toks1 =>
      match tok_type t with
      | JSON_TOK_OBJECT_END => (decoded, cmd)
      | JSON_TOK_COMMA =>
          match toks1 with
          | key :: colon :: value :: rest =>
              match obj_member descr key colon value decoded cmd with
              | inl e => (e, cmd)
              | inr (decoded', cmd') => obj_parse descr rest decoded' cmd'
              end
          | _ => (- EINVAL, cmd)
          end
      | JSON_TOK_STRING =>
          match toks1 with
          | colon :: value :: rest =>
              match obj_member descr t colon value decoded cmd with
              | inl e => (e, cmd)
              | inr (decoded', cmd') => obj_parse descr rest decoded' cmd'
              end
          | _ => (- EINVAL, cmd)
          end
      | _ => (- EINVAL, cmd)
      end
  end.

(** Modelled from the spec: [json_obj_parse] belongs to the JSON library and
    is not part of [src/]. The wire format is an object of named members;
    [led_num] is an integer and [led_state] a [true]/[false] literal. The
    value returned is the bit mask of the descriptors decoded, bit [i] for
    descriptor [i], or a negative error code. *)
Definition json_obj_parse_model (payload : list byte) (descr : list json_obj_descr)
    (descr_len : Z) : Z * led_command :=
  let cmd0 := {| led_num := 0; led_state := false |} in
  match tokenize (S (List.length payload)) payload with
  | t :: toks =>
      match tok_type t with
      | JSON_TOK_OBJECT_START =>
          obj_parse (List.firstn (Z.to_nat descr_len) descr) toks 0 cmd0
      | _ => (- EINVAL, cmd0)
      end
  | [] => (- EINVAL, cmd0)
  end.

(** A member name between quotes. *)
Definition quoted (name : string) : list byte :=
  [x22] ++ list_byte_of_string name ++ [x22].

Definition decimal_text (v : Z) : list byte :=
  list_byte_of_string (NilZero.string_of_int (Z.to_int v)).

(** Encoding of a command in the wire format:
    [{"led_num":<integer>,"led_state":<true|false>}]. *)
Definition encode_led_command (cmd : led_command) : list byte :=
  [x7b] ++ quoted "led_num" ++ [x3a] ++ decimal_text (led_num cmd)
    ++ [x2c] ++ quoted "led_state" ++ [x3a]
    ++ list_byte_of_string (if led_state cmd then "true" else "false")
    ++ [x7d].

(** The same object with the [led_state] member left out. *)
Definition encode_led_num_only (n : Z) : list byte :=
  [x7b] ++ quoted "led_num" ++ [x3a] ++ decimal_text n ++ [x7d].

(** [snprintf(buf, size, "%" PRId64, v)] as the C standard has it when no
    encoding error occurs: the decimal text of [v] is written, cut to
    [size - 1] bytes and followed by a NUL, and the length of the whole text
    is returned. *)
Definition snprintf_PRId64_model (buf : list byte) (size : Z) (v : Z) : Z * list byte :=
  let text := decimal_text v in
  let n := Z.of_nat (List.length text) in
  if size <=? 0 then (n, buf)
  else
    let written := List.firstn (Z.to_nat (size - 1)) text ++ [x00] in
    (n, written ++ List.skipn (List.length written) buf).

(** A formatter that reports an encoding error, as the C standard allows
    [snprintf] to: a negative value, the buffer as it was. *)
Definition snprintf_encoding_error (buf : list byte) (size : Z) (v : Z) : Z * list byte :=
  (-1, buf).

(** The bytes the accumulator holds: [post_payload_buf[0..cursor)]. *)
Definition accumulated (st : led_statics) : list byte :=
  List.firstn (Z.to_nat (cursor st)) (post_payload_buf st).

(** The command [{led_num: 3, led_state: true}]. *)
Definition led3_on : led_command := {| led_num := 3; led_state := true |}.

(** The driver call [parse_led_post] makes for a decoded command. *)
Definition actuation (dev : device) (cmd : led_command) : actuator_call :=
  if led_state cmd then led_on dev (to_uint32 (led_num cmd))
  else led_off dev (to_uint32 (led_num cmd)).

(** Total length of a request body delivered in pieces. *)
Definition body_length (chunks : list (list byte)) : Z :=
  Z.of_nat (List.length (List.concat chunks)).

(** ** Sample inputs *)

Definition ping_request : http_request_ctx :=
  mk_request (list_byte_of_string "ping").

Definition empty_request : http_request_ctx := mk_request [].

(** A chunk that fills the accumulator, and a one-byte chunk. *)
Definition full_chunk : http_request_ctx := mk_request (List.repeat x41 32).
Definition one_byte_chunk : http_request_ctx := mk_request [x42].

(** The accumulator once [full_chunk] has been stored. *)
Definition full_statics : led_statics :=
  {| post_payload_buf := List.repeat x41 32; cursor := 32 |}.

Definition uptime_statics_init : uptime_statics :=
  {| uptime_buf := List.repeat x00 23 |}.

(** ** Runs of events *)

(** The number of [FINAL] events of a run. *)
Definition final_events (evs : list chunk_event) : nat :=
  List.length
    (List.filter (fun ev => status_eqb (fst ev) HTTP_SERVER_DATA_FINAL) evs).

(** Sum of the [data_len] fields of a list of request contexts. *)
Definition sum_data_len (reqs : list http_request_ctx) : Z :=
  List.fold_right (fun r acc => data_len r + acc) 0 reqs.

(** The response an event gets from [echo_handler] when the server hands it
    a cleared response context: the payload back, or nothing on abort. *)
Definition echo_response (ev : chunk_event) : http_response_ctx :=
  if status_eqb (fst ev) HTTP_SERVER_DATA_ABORTED then empty_response
  else {| body := data (snd ev);
          body_len := data_len (snd ev);
          final_chunk := status_eqb (fst ev) HTTP_SERVER_DATA_FINAL |}.

(** ** [init_usb] *)

Definition ENODEV : Z := 19.

Definition usbd_context : Type := string.

(** The calls [init_usb] makes to the USB and network stacks. *)
Inductive usb_call : Type :=
| call_sample_usbd_init_device
| call_usbd_enable (ctx : usbd_context)
| call_net_config_init_app.

Section InitUsb.

(** [defined(CONFIG_USB_DEVICE_STACK_NEXT)]. *)
Variable CONFIG_USB_DEVICE_STACK_NEXT : bool.

(** [sample_usbd_init_device(NULL)]: [None] is [NULL]. *)
Variable sample_usbd_init_device : option usbd_context.

(** [usbd_enable(ctx)]: the [int] it returns. *)
Variable usbd_enable : usbd_context -> Z.

(** The value returned and the calls made, in order. *)
Definition init_usb : Z * list usb_call :=
  if CONFIG_USB_DEVICE_STACK_NEXT then
    match sample_usbd_init_device with
    | None => (- ENODEV, [call_sample_usbd_init_device])
    | Some sample_usbd =>
        let err := usbd_enable sample_usbd in
        if negb (err =? 0) then
          (err, [call_sample_usbd_init_device; call_usbd_enable sample_usbd])
        else
          (0, [call_sample_usbd_init_device; call_usbd_enable sample_usbd;
               call_net_config_init_app])
    end
  else (0, []).

End InitUsb.

(** ** Resource details *)

Inductive http_resource_type : Type :=
| HTTP_RESOURCE_TYPE_STATIC
| HTTP_RESOURCE_TYPE_DYNAMIC
| HTTP_RESOURCE_TYPE_WEBSOCKET.

(** The [common] part of a resource detail, as far as the file sets it. *)
Record http_resource_detail : Type := {
  resource_type : http_resource_type;
  bitmask_of_supported_http_methods : Z
}.

Section Resources.

(** The values of [HTTP_GET] and [HTTP_POST] in [enum http_method]. *)
Variable HTTP_GET : Z.
Variable HTTP_POST : Z.

Definition index_html_gz_resource_detail : http_resource_detail :=
  {| resource_type := HTTP_RESOURCE_TYPE_STATIC;
     bitmask_of_supported_http_methods := BIT HTTP_GET |}.

Definition main_js_gz_resource_detail : http_resource_detail :=
  {| resource_type := HTTP_RESOURCE_TYPE_STATIC;
     bitmask_of_supported_http_methods := BIT HTTP_GET |}.

Definition echo_resource_detail : http_resource_detail :=
  {| resource_type := HTTP_RESOURCE_TYPE_DYNAMIC;
     bitmask_of_supported_http_methods := Z.lor (BIT HTTP_GET) (BIT HTTP_POST) |}.

Definition uptime_resource_detail : http_resource_detail :=
  {| resource_type := HTTP_RESOURCE_TYPE_DYNAMIC;
     bitmask_of_supported_http_methods := BIT HTTP_GET |}.

Definition led_resource_detail : http_resource_detail :=
  {| resource_type := HTTP_RESOURCE_TYPE_DYNAMIC;
     bitmask_of_supported_http_methods := BIT HTTP_POST |}.

End Resources.

(** A command whose member values need every byte of the accumulator. *)
Definition led_minus1_off : led_command := {| led_num := -1; led_state := false |}.

(** ** The text of ["%" PRId64] *)

Definition INT64_MAX : Z := 2 ^ 63 - 1.

(** The character of a decimal digit. *)
Definition digit_byte (d : Z) : byte :=
  match d with
  | 0 => x30 | 1 => x31 | 2 => x32 | 3 => x33 | 4 => x34
  | 5 => x35 | 6 => x36 | 7 => x37 | 8 => x38 | _ => x39
  end.

(** The decimal digits of [v], least significant first, [fuel] of them at
    most. *)
Fixpoint digits_le (fuel : nat) (v : Z) : list byte :=
  match fuel with
  | O => []
  | S fuel' =>
      digit_byte (v mod 10)
        :: (if v / 10 =? 0 then [] else digits_le fuel' (v / 10))
  end.

(** What the C standard has [printf] write for ["%" PRId64]: the decimal
    digits of the value, most significant first and without leading zeros,
    after a minus sign for a negative value.  An [int64_t] has 19 digits at
    most. *)
Definition PRId64_text (v : Z) : list byte :=
  if v <? 0 then x2d :: List.rev (digits_le 19 (- v))
  else List.rev (digits_le 19 v).

(** The contract of the C standard for [snprintf(buf, size, "%" PRId64, v)]
    returning [ret] and leaving [buf'] in the buffer: [ret] is negative (an
    encoding error), or it is the length of the text, and the buffer starts
    with the whole text whenever [ret < size]. *)
Definition snprintf_contract (size v ret : Z) (buf' : list byte) : Prop :=
  ret < 0
  \/ (ret = Z.of_nat (List.length (PRId64_text v))
      /\ (ret < size -> List.firstn (Z.to_nat ret) buf' = PRId64_text v)).

(** * Properties *)

(** ** Status tags and [size_t] arithmetic *)

Lemma status_eqb_eq (a b : http_data_status) : status_eqb a b = true <-> a = b.
Proof. destruct a, b; simpl; split; intro H; congruence. Qed.

Lemma status_eqb_neq (a b : http_data_status) : status_eqb a b = false <-> a <> b.
Proof. destruct a, b; simpl; split; intro H; congruence. Qed.

Lemma size_add_exact (a b : Z) :
  0 <= a -> 0 <= b -> a + b <= SIZE_MAX -> size_add a b = a + b.
Proof.
  intros Ha Hb Hmax. unfold size_add.
  apply Z.mod_small. unfold SIZE_MAX in Hmax. lia.
Qed.

Lemma SIZE_MAX_value : SIZE_MAX = 4294967295.
Proof. reflexivity. Qed.

(** ** Echo *)

Lemma echo_handler_data (st : echo_statics) (status : http_data_status)
    (req : http_request_ctx) (resp : http_response_ctx) :
  status <> HTTP_SERVER_DATA_ABORTED ->
  echo_handler st status req resp =
    {| retval := 0;
       response := {| body := data req; body_len := data_len req;
                      final_chunk := status_eqb status HTTP_SERVER_DATA_FINAL |};
       statics := {| processed :=
                       if status_eqb status HTTP_SERVER_DATA_FINAL then 0
                       else size_add (processed st) (data_len req) |};
       calls := [] |}.
Proof.
  intro Hs. unfold echo_handler.
  apply status_eqb_neq in Hs. now rewrite Hs.
Qed.

Lemma deliver_app {S : Type} (cb : callback S) (evs1 evs2 : list chunk_event) (st : S) :
  deliver cb st (evs1 ++ evs2) =
    deliver cb st evs1
      ++ deliver cb (final_statics st (deliver cb st evs1)) evs2.
Proof.
  revert st. induction evs1 as [| [s r] evs1 IH]; intro st.
  - reflexivity.
  - cbn [deliver app]. rewrite IH. reflexivity.
Qed.

Lemma echo_more_run (mores : list http_request_ctx) (st : echo_statics) :
  let os := deliver echo_handler st
              (List.map (pair HTTP_SERVER_DATA_MORE) mores) in
  List.map response os =
    List.map (fun r => {| body := data r; body_len := data_len r;
                          final_chunk := false |}) mores.
Proof.
  revert st. induction mores as [| r mores IH]; intro st.
  - reflexivity.
  - cbn [List.map deliver]. cbv zeta in IH |- *.
    rewrite IH. f_equal.
Qed.

Lemma map_const_repeat {A B : Type} (b : B) (l : list A) :
  List.map (fun _ => b) l = List.repeat b (List.length l).
Proof. induction l as [| a l IH]; simpl; [reflexivity | now rewrite IH]. Qed.

Lemma echo_request_run (mores : list http_request_ctx) (final : http_request_ctx)
    (st : echo_statics) :
  List.map response
    (deliver echo_handler st
       (List.map (pair HTTP_SERVER_DATA_MORE) mores
          ++ [(HTTP_SERVER_DATA_FINAL, final)])) =
  List.map (fun r => {| body := data r; body_len := data_len r;
                        final_chunk := false |}) mores
    ++ [ {| body := data final; body_len := data_len final; final_chunk := true |} ].
Proof.
  rewrite deliver_app, List.map_app.
  pose proof (echo_more_run mores st) as Hm. cbv zeta in Hm.
  rewrite Hm. reflexivity.
Qed.

(** C1 -- echo identity.  For a chunk event whose status is [MORE] or
    [FINAL], [echo_handler] succeeds and answers with the request payload
    itself (same bytes, same length), flagged final exactly when the status
    is [FINAL].  Hence, over any run of [MORE] events closed by one [FINAL]
    event, the bodies emitted concatenate to the payloads received, the
    lengths agree one by one, and only the last response is flagged final. *)
Theorem echo_identity :
  forall (st : echo_statics) (status : http_data_status)
         (req : http_request_ctx) (resp : http_response_ctx)
         (mores : list http_request_ctx) (final : http_request_ctx),
    status <> HTTP_SERVER_DATA_ABORTED ->
    (let o := echo_handler st status req resp in
     retval o = 0
     /\ body (response o) = data req
     /\ body_len (response o) = data_len req
     /\ final_chunk (response o) = status_eqb status HTTP_SERVER_DATA_FINAL)
    /\
    (let os := deliver echo_handler st
                 (List.map (pair HTTP_SERVER_DATA_MORE) mores
                    ++ [(HTTP_SERVER_DATA_FINAL, final)]) in
     List.concat (List.map (fun o => body (response o)) os)
       = List.concat (List.map data (mores ++ [final]))
     /\ List.map (fun o => body_len (response o)) os
       = List.map data_len (mores ++ [final])
     /\ List.map (fun o => final_chunk (response o)) os
       = List.repeat false (List.length mores) ++ [true]).
Proof.
  intros st status req resp mores final Hs. split.
  - cbv zeta. rewrite (echo_handler_data st status req resp Hs). simpl. auto.
  - cbv zeta.
    pose proof (echo_request_run mores final st) as Hrun.
    set (os := deliver echo_handler st _) in *.
    rewrite <- (List.map_map response body os).
    rewrite <- (List.map_map response body_len os).
    rewrite <- (List.map_map response final_chunk os).
    rewrite Hrun. rewrite !List.map_app, !List.map_map. cbn [List.map body body_len final_chunk].
    rewrite map_const_repeat. auto.
Qed.

Lemma echo_identity_witness :
  HTTP_SERVER_DATA_FINAL <> HTTP_SERVER_DATA_ABORTED
  /\ body (response (echo_handler {| processed := 7 |} HTTP_SERVER_DATA_FINAL
                       ping_request empty_response))
     = list_byte_of_string "ping"
  /\ body_len (response (echo_handler {| processed := 7 |} HTTP_SERVER_DATA_FINAL
                           ping_request empty_response)) = 4
  /\ final_chunk (response (echo_handler {| processed := 7 |} HTTP_SERVER_DATA_FINAL
                              ping_request empty_response)) = true.
Proof.
  assert (Hs : HTTP_SERVER_DATA_FINAL <> HTTP_SERVER_DATA_ABORTED) by discriminate.
  split; [exact Hs |].
  pose proof (echo_identity {| processed := 7 |} HTTP_SERVER_DATA_FINAL
                ping_request empty_response [] empty_request Hs) as [H _].
  cbv zeta in H. destruct H as (_ & Hb & Hl & Hf).
  split; [exact Hb | split; [exact Hl | exact Hf]].
Defined.

(** C9 -- echo on abort.  On an [ABORTED] event [echo_handler] returns 0,
    leaves the response context as it received it (no response), makes no
    driver call and puts its running byte count back to 0; the count is
    also 0 after a [FINAL] event. *)
Theorem echo_aborted_resets :
  forall (st : echo_statics) (req : http_request_ctx) (resp : http_response_ctx),
    (let o := echo_handler st HTTP_SERVER_DATA_ABORTED req resp in
     retval o = 0
     /\ response o = resp
     /\ calls o = []
     /\ processed (statics o) = 0)
    /\ processed (statics (echo_handler st HTTP_SERVER_DATA_FINAL req resp)) = 0.
Proof.
  intros st req resp. split.
  - cbv zeta. unfold echo_handler. simpl. auto.
  - unfold echo_handler. simpl. reflexivity.
Qed.

(** ** Uptime *)

Lemma digits_le_length (fuel : nat) :
  forall v : Z, (List.length (digits_le fuel v) <= fuel)%nat.
Proof.
  induction fuel as [| fuel IH]; intro v; cbn [digits_le List.length].
  - lia.
  - destruct (v / 10 =? 0); cbn [List.length]; [lia |].
    specialize (IH (v / 10)). lia.
Qed.

Lemma PRId64_text_length (v : Z) :
  0 <= v -> Z.of_nat (List.length (PRId64_text v)) <= 19.
Proof.
  intro Hv. unfold PRId64_text.
  destruct (Z.ltb_spec v 0); [lia |].
  rewrite List.length_rev. pose proof (digits_le_length 19 v). lia.
Qed.

Lemma digit_byte_value (d : Z) : 0 <= d < 10 -> digit_value (digit_byte d) = d.
Proof.
  intro Hd.
  assert (H : d = 0 \/ d = 1 \/ d = 2 \/ d = 3 \/ d = 4 \/ d = 5 \/ d = 6
              \/ d = 7 \/ d = 8 \/ d = 9) by lia.
  repeat (destruct H as [-> | H]; [reflexivity |]). subst d. reflexivity.
Qed.

Lemma decimal_value_rev (ds : list byte) :
  decimal_value (List.rev ds)
    = List.fold_right (fun c acc => 10 * acc + digit_value c) 0 ds.
Proof.
  unfold decimal_value. rewrite <- (List.rev_involutive ds) at 2.
  symmetry.
  apply (List.fold_left_rev_right (fun c acc => 10 * acc + digit_value c)).
Qed.

Lemma digits_le_value (fuel : nat) :
  forall v : Z,
    0 <= v < 10 ^ Z.of_nat fuel ->
    List.fold_right (fun c acc => 10 * acc + digit_value c) 0 (digits_le fuel v) = v.
Proof.
  induction fuel as [| fuel IH]; intros v Hv.
  - cbn in *. lia.
  - rewrite Nat2Z.inj_succ, Z.pow_succ_r in Hv by lia.
    cbn [digits_le List.fold_right].
    rewrite digit_byte_value by (apply Z.mod_pos_bound; lia).
    pose proof (Z.div_mod v 10 ltac:(lia)) as Hdm.
    destruct (Z.eqb_spec (v / 10) 0) as [Hz | Hnz].
    + cbn [List.fold_right]. lia.
    + rewrite IH; [lia |].
      split; [apply Z.div_pos; lia | apply Z.div_lt_upper_bound; lia].
Qed.

(** The text denotes the value: no digit of an [int64_t] is lost. *)
Lemma PRId64_text_value (v : Z) :
  0 <= v <= INT64_MAX -> decimal_value (PRId64_text v) = v.
Proof.
  intros [Hlo Hhi]. unfold PRId64_text.
  destruct (Z.ltb_spec v 0); [lia |].
  rewrite decimal_value_rev. apply digits_le_value.
  unfold INT64_MAX in Hhi. cbn. lia.
Qed.

(** C6 -- compute on completion.  Let the formatter, which obeys the
    contract of [snprintf], return [ret] and leave [buf'] in the bounded
    buffer, of 20 bytes or more, for an uptime that is a non-negative
    [int64_t].  The output cannot exceed the buffer: unless [ret] is
    negative, [ret] is below the buffer size and the buffer starts with the
    whole decimal text.  On a [FINAL] event, when [ret] is not negative the
    handler returns 0 and answers with one response flagged final whose
    body is the buffer, its [ret] bytes being the formatted text; when the
    formatter fails ([ret] negative) the handler returns that negative
    value to the transport and leaves the response context untouched.  On
    any other event it returns 0 and changes neither the response context
    nor its statics.  It never calls the driver and never looks at the
    request. *)
Theorem uptime_on_completion :
  forall (size : Z) (snprintf : list byte -> Z -> Z -> Z * list byte) (uptime : Z)
         (st : uptime_statics) (status : http_data_status)
         (req : http_request_ctx) (resp : http_response_ctx)
         (ret : Z) (buf' : list byte),
    snprintf (uptime_buf st) size uptime = (ret, buf') ->
    snprintf_contract size uptime ret buf' ->
    20 <= size -> 0 <= uptime <= INT64_MAX ->
    let o := uptime_handler size snprintf uptime st status req resp in
    (0 <= ret ->
       ret < size
       /\ List.firstn (Z.to_nat ret) buf' = PRId64_text uptime)
    /\ (status = HTTP_SERVER_DATA_FINAL -> 0 <= ret ->
       retval o = 0
       /\ response o = {| body := buf'; body_len := ret; final_chunk := true |}
       /\ List.firstn (Z.to_nat (body_len (response o))) (body (response o))
          = PRId64_text uptime)
    /\ (status = HTTP_SERVER_DATA_FINAL -> ret < 0 ->
       retval o = ret /\ retval o <> 0 /\ response o = resp)
    /\ (status <> HTTP_SERVER_DATA_FINAL ->
       retval o = 0 /\ response o = resp /\ statics o = st)
    /\ calls o = []
    /\ (forall req' : http_request_ctx,
         uptime_handler size snprintf uptime st status req' resp = o).
Proof.
  intros size snprintf uptime st status req resp ret buf' Hfmt Hcon Hsize Hup.
  cbv zeta.
  assert (Hfits : 0 <= ret ->
                  ret < size
                  /\ List.firstn (Z.to_nat ret) buf' = PRId64_text uptime).
  { intro Hret. destruct Hcon as [Hneg | [Hlen Htext]]; [lia |].
    pose proof (PRId64_text_length uptime (proj1 Hup)) as Hshort.
    assert (Hlt : ret < size) by lia.
    split; [exact Hlt | exact (Htext Hlt)]. }
  split; [exact Hfits |].
  unfold uptime_handler. rewrite Hfmt.
  split; [| split; [| split; [| split]]].
  - intros -> Hret. cbn [status_eqb].
    destruct (Z.ltb_spec ret 0); [lia |].
    cbn [retval response body body_len].
    split; [reflexivity | split; [reflexivity | apply Hfits, Hret]].
  - intros -> Hret. cbn [status_eqb].
    destruct (Z.ltb_spec ret 0); [| lia].
    cbn. repeat split. lia.
  - intro Hs. apply status_eqb_neq in Hs. rewrite Hs. cbn. auto.
  - destruct (status_eqb status HTTP_SERVER_DATA_FINAL); [| reflexivity].
    destruct (ret <? 0); reflexivity.
  - reflexivity.
Qed.

Lemma uptime_on_completion_witness :
  (retval (uptime_handler 23 snprintf_PRId64_model 123456 uptime_statics_init
             HTTP_SERVER_DATA_FINAL empty_request empty_response) = 0
   /\ response (uptime_handler 23 snprintf_PRId64_model 123456 uptime_statics_init
                  HTTP_SERVER_DATA_FINAL empty_request empty_response)
      = {| body := list_byte_of_string "123456" ++ List.repeat x00 17;
           body_len := 6; final_chunk := true |})
  /\ (retval (uptime_handler 23 snprintf_encoding_error 123456 uptime_statics_init
                HTTP_SERVER_DATA_FINAL empty_request empty_response) = -1
      /\ response (uptime_handler 23 snprintf_encoding_error 123456
                     uptime_statics_init
                     HTTP_SERVER_DATA_FINAL empty_request empty_response)
         = empty_response).
Proof.
  assert (Hup : 0 <= 123456 <= INT64_MAX) by (unfold INT64_MAX; lia).
  split.
  - assert (Hcon : snprintf_contract 23 123456 6
                     (list_byte_of_string "123456" ++ List.repeat x00 17))
      by (right; split; [reflexivity | intros _; reflexivity]).
    destruct (uptime_on_completion 23 snprintf_PRId64_model 123456
                uptime_statics_init HTTP_SERVER_DATA_FINAL
                empty_request empty_response
                6 (list_byte_of_string "123456" ++ List.repeat x00 17)
                eq_refl Hcon ltac:(lia) Hup) as (_ & Hok & _).
    destruct (Hok eq_refl ltac:(lia)) as (Hr & Hresp & _).
    split; assumption.
  - assert (Hcon : snprintf_contract 23 123456 (-1) (List.repeat x00 23))
      by (left; lia).
    destruct (uptime_on_completion 23 snprintf_encoding_error 123456
                uptime_statics_init HTTP_SERVER_DATA_FINAL
                empty_request empty_response
                (-1) (List.repeat x00 23) eq_refl Hcon ltac:(lia) Hup)
      as (_ & _ & Hko & _).
    destruct (Hko eq_refl ltac:(lia)) as (Hr & _ & Hresp).
    split; assumption.
Defined.

(** ** The accumulator *)

Lemma memcpy_length (dst src : list byte) (off n : Z) :
  0 <= off -> n = Z.of_nat (List.length src) ->
  off + n <= Z.of_nat (List.length dst) ->
  List.length (memcpy dst off src n) = List.length dst.
Proof.
  intros Hoff Hn Hfit. unfold memcpy.
  rewrite !List.length_app, !List.length_firstn, List.length_skipn. lia.
Qed.

Lemma memcpy_prefix (dst src : list byte) (off n : Z) :
  0 <= off -> n = Z.of_nat (List.length src) ->
  off + n <= Z.of_nat (List.length dst) ->
  List.firstn (Z.to_nat (off + n)) (memcpy dst off src n)
    = List.firstn (Z.to_nat off) dst ++ src.
Proof.
  intros Hoff Hn Hfit. unfold memcpy.
  assert (Hsrc : List.firstn (Z.to_nat n) src = src).
  { apply List.firstn_all2. lia. }
  rewrite Hsrc, List.app_assoc.
  rewrite List.firstn_app.
  assert (Hlen : List.length (List.firstn (Z.to_nat off) dst ++ src)
                 = Z.to_nat (off + n)).
  { rewrite List.length_app, List.length_firstn. lia. }
  rewrite Hlen, Nat.sub_diag. cbn [List.firstn].
  rewrite List.app_nil_r. apply List.firstn_all2. lia.
Qed.

Section LedFacts.

Variable leds_dev : option device.
Variable json_obj_parse : list byte -> list json_obj_descr -> Z -> Z * led_command.

Local Notation "'handler'" := (led_handler leds_dev json_obj_parse).
Local Notation "'parse_post'" := (parse_led_post leds_dev json_obj_parse).

Lemma led_handler_aborted (st : led_statics) (req : http_request_ctx)
    (resp : http_response_ctx) :
  handler st HTTP_SERVER_DATA_ABORTED req resp =
    {| retval := 0; response := resp;
       statics := {| post_payload_buf := post_payload_buf st; cursor := 0 |};
       calls := [] |}.
Proof. reflexivity. Qed.

Lemma capacity_test (st : led_statics) (req : http_request_ctx) :
  led_statics_ok st -> request_ok req ->
  size_add (data_len req) (cursor st) = cursor st + data_len req
  /\ size_add (cursor st) (data_len req) = cursor st + data_len req.
Proof.
  intros [Hc _] [Hlen Hmax]. unfold sizeof_post_payload_buf in Hc.
  rewrite !size_add_exact; lia.
Qed.

Lemma led_handler_over (st : led_statics) (status : http_data_status)
    (req : http_request_ctx) (resp : http_response_ctx) :
  status <> HTTP_SERVER_DATA_ABORTED ->
  led_statics_ok st -> request_ok req ->
  cursor st + data_len req > sizeof_post_payload_buf ->
  handler st status req resp =
    {| retval := - ENOMEM; response := resp;
       statics := {| post_payload_buf := post_payload_buf st; cursor := 0 |};
       calls := [] |}.
Proof.
  intros Hs Hst Hreq Hover. unfold led_handler.
  apply status_eqb_neq in Hs. rewrite Hs.
  destruct (capacity_test st req Hst Hreq) as [-> _].
  destruct (Z.gtb_spec (cursor st + data_len req) sizeof_post_payload_buf);
    [reflexivity | lia].
Qed.

Lemma led_handler_fits (st : led_statics) (status : http_data_status)
    (req : http_request_ctx) (resp : http_response_ctx) :
  status <> HTTP_SERVER_DATA_ABORTED ->
  led_statics_ok st -> request_ok req ->
  cursor st + data_len req <= sizeof_post_payload_buf ->
  let buf1 := memcpy (post_payload_buf st) (cursor st) (data req) (data_len req) in
  let cursor1 := cursor st + data_len req in
  handler st status req resp =
    if status_eqb status HTTP_SERVER_DATA_FINAL then
      {| retval := 0; response := resp;
         statics := {| post_payload_buf := buf1; cursor := 0 |};
         calls := parse_post buf1 cursor1 |}
    else
      {| retval := 0; response := resp;
         statics := {| post_payload_buf := buf1; cursor := cursor1 |};
         calls := [] |}.
Proof.
  intros Hs Hst Hreq Hfit. cbv zeta. unfold led_handler.
  apply status_eqb_neq in Hs. rewrite Hs.
  destruct (capacity_test st req Hst Hreq) as [-> ->].
  destruct (Z.gtb_spec (cursor st + data_len req) sizeof_post_payload_buf);
    [lia | reflexivity].
Qed.

(** After an accepted event the buffer holds the bytes accumulated before
    it followed by the event's payload. *)
Lemma accumulated_fits (st : led_statics) (req : http_request_ctx) :
  led_statics_ok st -> request_ok req ->
  cursor st + data_len req <= sizeof_post_payload_buf ->
  List.firstn (Z.to_nat (cursor st + data_len req))
    (memcpy (post_payload_buf st) (cursor st) (data req) (data_len req))
  = accumulated st ++ data req.
Proof.
  intros [Hc Hbuf] [Hlen _] Hfit. unfold accumulated.
  apply memcpy_prefix; lia.
Qed.

Lemma parse_led_post_rejects (buf : list byte) (len : Z) :
  fst (json_obj_parse (List.firstn (Z.to_nat len) buf) led_command_descr
         (ARRAY_SIZE led_command_descr))
    <> BIT_MASK (ARRAY_SIZE led_command_descr) ->
  parse_post buf len = [].
Proof.
  intro Hret. unfold parse_led_post.
  destruct (json_obj_parse _ _ _) as [ret cmd]. simpl in Hret.
  destruct (Z.eqb_spec ret (BIT_MASK (ARRAY_SIZE led_command_descr)));
    [contradiction | reflexivity].
Qed.

Lemma parse_led_post_accepts (buf : list byte) (len : Z) (cmd : led_command) :
  json_obj_parse (List.firstn (Z.to_nat len) buf) led_command_descr
    (ARRAY_SIZE led_command_descr)
    = (BIT_MASK (ARRAY_SIZE led_command_descr), cmd) ->
  parse_post buf len =
    match leds_dev with
    | Some dev => [actuation dev cmd]
    | None => []
    end.
Proof.
  intro Hret. unfold parse_led_post. rewrite Hret.
  rewrite Z.eqb_refl. cbn [negb]. unfold actuation.
  destruct leds_dev; [destruct (led_state cmd) |]; reflexivity.
Qed.

Lemma led_handler_keeps_ok (st : led_statics) (status : http_data_status)
    (req : http_request_ctx) (resp : http_response_ctx) :
  led_statics_ok st -> request_ok req ->
  led_statics_ok (statics (handler st status req resp)).
Proof.
  intros Hst Hreq.
  assert (Hreset : led_statics_ok
                     {| post_payload_buf := post_payload_buf st; cursor := 0 |}).
  { destruct Hst as [Hc Hb]. split; cbn; [unfold sizeof_post_payload_buf; lia | exact Hb]. }
  destruct (status_eqb status HTTP_SERVER_DATA_ABORTED) eqn:Hab.
  - apply status_eqb_eq in Hab. subst status.
    rewrite led_handler_aborted. exact Hreset.
  - apply status_eqb_neq in Hab.
    destruct (Z_le_gt_dec (cursor st + data_len req) sizeof_post_payload_buf)
      as [Hfit | Hover].
    + rewrite led_handler_fits by assumption.
      assert (Hlen : List.length (memcpy (post_payload_buf st) (cursor st)
                                    (data req) (data_len req))
                     = List.length (post_payload_buf st)).
      { destruct Hst as [Hc Hb]. destruct Hreq as [Hlen _].
        apply memcpy_length; lia. }
      destruct Hst as [Hc Hb]. destruct Hreq as [Hl Hmax].
      pose proof (Nat2Z.is_nonneg (List.length (data req))) as Hpos.
      destruct (status_eqb status HTTP_SERVER_DATA_FINAL);
        split; cbn; rewrite ?Hlen; unfold sizeof_post_payload_buf in *; lia.
    + rewrite led_handler_over by assumption. exact Hreset.
Qed.

End LedFacts.

Lemma led_statics_init_ok : led_statics_ok led_statics_init.
Proof. split; cbn; [unfold sizeof_post_payload_buf; lia | reflexivity]. Qed.

Lemma full_statics_ok : led_statics_ok full_statics.
Proof. split; cbn; [unfold sizeof_post_payload_buf; lia | reflexivity]. Qed.

Lemma mk_request_ok (payload : list byte) :
  Z.of_nat (List.length payload) + 32 <= SIZE_MAX -> request_ok (mk_request payload).
Proof. intro H. split; [reflexivity | exact H]. Qed.

Lemma small_request_ok (payload : list byte) :
  Z.of_nat (List.length payload) <= 32 -> request_ok (mk_request payload).
Proof. intro H. apply mk_request_ok. rewrite SIZE_MAX_value. lia. Qed.

(** C2 -- capacity boundary.  From an empty accumulator, a [MORE] event
    whose payload is exactly as long as the buffer is accepted: the handler
    returns 0, the cursor stands at the capacity and the buffer holds the
    payload.  The next event of the request ([MORE] or [FINAL]) with at
    least one byte is refused: the handler returns [-ENOMEM], the cursor is
    back to 0, the buffer holds what it held (nothing of the event was
    written), no driver call is made and no response is produced. *)
Theorem capacity_boundary :
  forall (leds_dev : option device)
         (json_obj_parse : list byte -> list json_obj_descr -> Z -> Z * led_command)
         (st : led_statics) (req1 req2 : http_request_ctx)
         (status2 : http_data_status) (resp : http_response_ctx),
    led_statics_ok st -> cursor st = 0 ->
    request_ok req1 -> data_len req1 = sizeof_post_payload_buf ->
    request_ok req2 -> 1 <= data_len req2 ->
    status2 <> HTTP_SERVER_DATA_ABORTED ->
    let o1 := led_handler leds_dev json_obj_parse st HTTP_SERVER_DATA_MORE req1 resp in
    let o2 := led_handler leds_dev json_obj_parse (statics o1) status2 req2 resp in
    (retval o1 = 0
     /\ cursor (statics o1) = sizeof_post_payload_buf
     /\ post_payload_buf (statics o1) = data req1)
    /\ (retval o2 = - ENOMEM
        /\ cursor (statics o2) = 0
        /\ post_payload_buf (statics o2) = post_payload_buf (statics o1)
        /\ calls o2 = []
        /\ response o2 = resp).
Proof.
  intros leds_dev parse st req1 req2 status2 resp Hst Hc0 Hreq1 Hfull Hreq2 Hone Hs2.
  cbv zeta.
  assert (Hok1 : led_statics_ok
                   (statics (led_handler leds_dev parse st HTTP_SERVER_DATA_MORE req1 resp)))
    by (apply led_handler_keeps_ok; assumption).
  assert (Hfit : cursor st + data_len req1 <= sizeof_post_payload_buf) by lia.
  pose proof (led_handler_fits leds_dev parse st HTTP_SERVER_DATA_MORE req1 resp
                ltac:(discriminate) Hst Hreq1 Hfit) as H1.
  cbv zeta in H1. cbn [status_eqb] in H1.
  pose proof (accumulated_fits st req1 Hst Hreq1 Hfit) as Hacc.
  rewrite H1 in Hok1 |- *. cbn [retval statics cursor post_payload_buf] in *.
  assert (Hc1 : cursor st + data_len req1 = sizeof_post_payload_buf) by lia.
  split.
  - split; [reflexivity | split; [exact Hc1 |]].
    destruct Hok1 as [_ Hb1]. cbn in Hb1.
    rewrite <- (List.firstn_all
                  (memcpy (post_payload_buf st) (cursor st) (data req1) (data_len req1))).
    replace (List.length (memcpy (post_payload_buf st) (cursor st) (data req1)
                            (data_len req1)))
      with (Z.to_nat (cursor st + data_len req1)) by lia.
    rewrite Hacc. unfold accumulated. rewrite Hc0. reflexivity.
  - rewrite led_handler_over; try assumption.
    + cbn. auto.
    + cbn. lia.
Qed.

Lemma capacity_boundary_witness :
  retval (led_handler None json_obj_parse_model led_statics_init
            HTTP_SERVER_DATA_MORE full_chunk empty_response) = 0
  /\ statics (led_handler None json_obj_parse_model led_statics_init
                HTTP_SERVER_DATA_MORE full_chunk empty_response) = full_statics
  /\ retval (led_handler None json_obj_parse_model full_statics
               HTTP_SERVER_DATA_MORE one_byte_chunk empty_response) = - ENOMEM
  /\ cursor (statics (led_handler None json_obj_parse_model full_statics
                        HTTP_SERVER_DATA_MORE one_byte_chunk empty_response)) = 0.
Proof.
  assert (Hs : HTTP_SERVER_DATA_MORE <> HTTP_SERVER_DATA_ABORTED) by discriminate.
  destruct (capacity_boundary None json_obj_parse_model led_statics_init
              full_chunk one_byte_chunk HTTP_SERVER_DATA_MORE empty_response
              led_statics_init_ok eq_refl
              (small_request_ok (List.repeat x41 32) ltac:(cbn; lia)) eq_refl
              (small_request_ok [x42] ltac:(cbn; lia)) ltac:(cbn; lia) Hs)
    as ((Hr1 & _ & _) & (Hr2 & Hc2 & _)).
  split; [exact Hr1 |]. split; [reflexivity |].
  split; [exact Hr2 | exact Hc2].
Defined.

(** C3 -- malformed payload.  When a [FINAL] event completes a body that the
    decoder does not decode in full -- it returns something other than the
    mask of all descriptors, as it does for a body that lacks a required
    member -- the handler makes no driver call and leaves the cursor at 0. *)
Theorem malformed_payload_no_actuation :
  forall (leds_dev : option device)
         (json_obj_parse : list byte -> list json_obj_descr -> Z -> Z * led_command)
         (st : led_statics) (req : http_request_ctx) (resp : http_response_ctx),
    led_statics_ok st -> request_ok req ->
    fst (json_obj_parse (accumulated st ++ data req) led_command_descr
           (ARRAY_SIZE led_command_descr))
      <> BIT_MASK (ARRAY_SIZE led_command_descr) ->
    let o := led_handler leds_dev json_obj_parse st HTTP_SERVER_DATA_FINAL req resp in
    calls o = [] /\ cursor (statics o) = 0.
Proof.
  intros leds_dev parse st req resp Hst Hreq Hbad. cbv zeta.
  destruct (Z_le_gt_dec (cursor st + data_len req) sizeof_post_payload_buf)
    as [Hfit | Hover].
  - rewrite led_handler_fits by (discriminate || assumption).
    cbn [status_eqb calls statics cursor]. split; [| reflexivity].
    apply parse_led_post_rejects.
    rewrite accumulated_fits by assumption. exact Hbad.
  - rewrite led_handler_over by (discriminate || assumption).
    cbn. auto.
Qed.

Lemma malformed_payload_no_actuation_witness :
  fst (json_obj_parse_model (encode_led_num_only 3) led_command_descr
         (ARRAY_SIZE led_command_descr)) = 1
  /\ calls (led_handler (Some "leds"%string) json_obj_parse_model led_statics_init
              HTTP_SERVER_DATA_FINAL (mk_request (encode_led_num_only 3))
              empty_response) = []
  /\ cursor (statics (led_handler (Some "leds"%string) json_obj_parse_model
                        led_statics_init HTTP_SERVER_DATA_FINAL
                        (mk_request (encode_led_num_only 3)) empty_response)) = 0.
Proof.
  split; [reflexivity |].
  apply (malformed_payload_no_actuation (Some "leds"%string) json_obj_parse_model
           led_statics_init (mk_request (encode_led_num_only 3)) empty_response
           led_statics_init_ok
           (small_request_ok (encode_led_num_only 3) ltac:(cbn; lia))).
  vm_compute. discriminate.
Defined.

(** C5 -- accumulator reset invariant.  Every invocation of [led_handler]
    leaves [0 <= cursor <= 32]; the cursor is 0 after an [ABORTED] event and
    after a [FINAL] event, whatever the decoder made of the body; the bound
    holds after each event of any run; and a second [ABORTED] event leaves
    the statics exactly as the first one left them, with the cursor at 0. *)
Theorem accumulator_invariant :
  forall (leds_dev : option device)
         (json_obj_parse : list byte -> list json_obj_descr -> Z -> Z * led_command)
         (st : led_statics) (status : http_data_status)
         (req req' : http_request_ctx) (resp : http_response_ctx)
         (evs : list chunk_event),
    led_statics_ok st -> request_ok req ->
    List.Forall (fun ev => request_ok (snd ev)) evs ->
    let handler := led_handler leds_dev json_obj_parse in
    (0 <= cursor (statics (handler st status req resp)) <= sizeof_post_payload_buf)
    /\ (status <> HTTP_SERVER_DATA_MORE ->
        cursor (statics (handler st status req resp)) = 0)
    /\ List.Forall
         (fun o => 0 <= cursor (statics o) <= sizeof_post_payload_buf)
         (deliver handler st evs)
    /\ (let once := statics (handler st HTTP_SERVER_DATA_ABORTED req resp) in
        let twice := statics (handler once HTTP_SERVER_DATA_ABORTED req' resp) in
        twice = once /\ cursor once = 0).
Proof.
  intros leds_dev parse st status req req' resp evs Hst Hreq Hevs. cbv zeta.
  split; [| split; [| split]].
  - apply (led_handler_keeps_ok leds_dev parse st status req resp Hst Hreq).
  - intro Hs. destruct status; [reflexivity | congruence |].
    destruct (Z_le_gt_dec (cursor st + data_len req) sizeof_post_payload_buf)
      as [Hfit | Hover].
    + rewrite led_handler_fits by (discriminate || assumption). reflexivity.
    + rewrite led_handler_over by (discriminate || assumption). reflexivity.
  - clear Hreq. revert st Hst.
    induction Hevs as [| [s r] evs Hr Hevs IH]; intros st Hst.
    + constructor.
    + cbn [deliver]. cbn [snd] in Hr.
      pose proof (led_handler_keeps_ok leds_dev parse st s r empty_response Hst Hr)
        as Hnext.
      constructor; [apply Hnext | apply IH, Hnext].
  - rewrite !led_handler_aborted. cbn. auto.
Qed.

Lemma accumulator_invariant_witness :
  cursor (statics (led_handler None json_obj_parse_model full_statics
                     HTTP_SERVER_DATA_FINAL one_byte_chunk empty_response)) = 0
  /\ List.Forall
       (fun o => 0 <= cursor (statics o) <= sizeof_post_payload_buf)
       (deliver (led_handler None json_obj_parse_model) full_statics
          [(HTTP_SERVER_DATA_ABORTED, empty_request);
           (HTTP_SERVER_DATA_MORE, full_chunk);
           (HTTP_SERVER_DATA_MORE, one_byte_chunk)]).
Proof.
  assert (Hone : request_ok one_byte_chunk)
    by (apply small_request_ok; cbn; lia).
  assert (Hfull : request_ok full_chunk)
    by (apply small_request_ok; cbn; lia).
  assert (Hnil : request_ok empty_request)
    by (apply small_request_ok; cbn; lia).
  assert (Hevs : List.Forall (fun ev => request_ok (snd ev))
                   [(HTTP_SERVER_DATA_ABORTED, empty_request);
                    (HTTP_SERVER_DATA_MORE, full_chunk);
                    (HTTP_SERVER_DATA_MORE, one_byte_chunk)])
    by (repeat (apply List.Forall_cons; [assumption |]); apply List.Forall_nil).
  destruct (accumulator_invariant None json_obj_parse_model full_statics
              HTTP_SERVER_DATA_FINAL one_byte_chunk one_byte_chunk empty_response
              _ full_statics_ok Hone Hevs)
    as (_ & Hzero & Hrun & _).
  split; [apply Hzero; discriminate | exact Hrun].
Defined.

(** C7 (as amended) -- order of the checks.  [led_handler] tests for
    [ABORTED] before it tests the capacity.  An [ABORTED] event, whatever
    its length and whatever the accumulator holds, is answered with 0: the
    cursor is put back to 0, the buffer is left as it was, no driver call
    is made and no response is produced.  A [MORE] or [FINAL] event for
    which [cursor + length] exceeds the capacity is answered with
    [-ENOMEM], with the same effects. *)
Theorem abort_check_precedes_capacity_check :
  forall (leds_dev : option device)
         (json_obj_parse : list byte -> list json_obj_descr -> Z -> Z * led_command)
         (st : led_statics) (status : http_data_status)
         (req : http_request_ctx) (resp : http_response_ctx),
    let o := led_handler leds_dev json_obj_parse st status req resp in
    (status = HTTP_SERVER_DATA_ABORTED ->
       retval o = 0
       /\ cursor (statics o) = 0
       /\ post_payload_buf (statics o) = post_payload_buf st
       /\ calls o = []
       /\ response o = resp)
    /\ (status <> HTTP_SERVER_DATA_ABORTED ->
        led_statics_ok st -> request_ok req ->
        cursor st + data_len req > sizeof_post_payload_buf ->
        retval o = - ENOMEM
        /\ cursor (statics o) = 0
        /\ post_payload_buf (statics o) = post_payload_buf st
        /\ calls o = []
        /\ response o = resp).
Proof.
  intros leds_dev parse st status req resp. cbv zeta. split.
  - intros ->. rewrite led_handler_aborted. cbn. auto.
  - intros Hs Hst Hreq Hover.
    rewrite led_handler_over by assumption. cbn. auto.
Qed.

Lemma abort_check_precedes_capacity_check_witness :
  retval (led_handler None json_obj_parse_model full_statics
            HTTP_SERVER_DATA_FINAL one_byte_chunk empty_response) = - ENOMEM
  /\ retval (led_handler None json_obj_parse_model full_statics
               HTTP_SERVER_DATA_ABORTED one_byte_chunk empty_response) = 0
  /\ retval (led_handler None json_obj_parse_model led_statics_init
               HTTP_SERVER_DATA_ABORTED ping_request empty_response) = 0.
Proof.
  assert (Hone : request_ok one_byte_chunk)
    by (apply small_request_ok; cbn; lia).
  assert (Hover : cursor full_statics + data_len one_byte_chunk
                  > sizeof_post_payload_buf) by reflexivity.
  assert (Hfin : HTTP_SERVER_DATA_FINAL <> HTTP_SERVER_DATA_ABORTED) by discriminate.
  split; [| split].
  - destruct (abort_check_precedes_capacity_check None json_obj_parse_model
                full_statics HTTP_SERVER_DATA_FINAL one_byte_chunk empty_response)
      as [_ Hcap].
    apply (Hcap Hfin full_statics_ok Hone Hover).
  - destruct (abort_check_precedes_capacity_check None json_obj_parse_model
                full_statics HTTP_SERVER_DATA_ABORTED one_byte_chunk empty_response)
      as [Hab _].
    apply (Hab eq_refl).
  - destruct (abort_check_precedes_capacity_check None json_obj_parse_model
                led_statics_init HTTP_SERVER_DATA_ABORTED ping_request empty_response)
      as [Hab _].
    apply (Hab eq_refl).
Defined.

(** C7 as stated fails: with the accumulator full, an [ABORTED] event that
    carries one byte has [cursor + length] above the capacity, and the
    handler returns 0, not [-ENOMEM]. *)
Lemma aborted_over_capacity_returns_success :
  cursor full_statics + data_len one_byte_chunk > sizeof_post_payload_buf
  /\ retval (led_handler None json_obj_parse_model full_statics
               HTTP_SERVER_DATA_ABORTED one_byte_chunk empty_response) = 0
  /\ retval (led_handler None json_obj_parse_model full_statics
               HTTP_SERVER_DATA_ABORTED one_byte_chunk empty_response) <> - ENOMEM.
Proof.
  split; [reflexivity |]. split; [reflexivity |]. cbn. discriminate.
Qed.

(** ** Whole requests *)

Lemma body_length_cons (c : list byte) (chunks : list (list byte)) :
  body_length (c :: chunks) = Z.of_nat (List.length c) + body_length chunks.
Proof. unfold body_length. cbn [List.concat]. rewrite List.length_app. lia. Qed.

Lemma body_length_nonneg (chunks : list (list byte)) : 0 <= body_length chunks.
Proof. unfold body_length. lia. Qed.

Lemma body_length_last (chunks : list (list byte)) (last : list byte) :
  body_length (chunks ++ [last]) = body_length chunks + Z.of_nat (List.length last).
Proof.
  unfold body_length. rewrite List.concat_app, List.length_app.
  cbn [List.concat]. rewrite List.app_nil_r. lia.
Qed.

Section LedRuns.

Variable leds_dev : option device.
Variable json_obj_parse : list byte -> list json_obj_descr -> Z -> Z * led_command.

Local Notation "'handler'" := (led_handler leds_dev json_obj_parse).
Local Notation "'parse_post'" := (parse_led_post leds_dev json_obj_parse).

Lemma parse_led_post_slice (buf buf' : list byte) (len len' : Z) :
  List.firstn (Z.to_nat len) buf = List.firstn (Z.to_nat len') buf' ->
  parse_post buf len = parse_post buf' len'.
Proof. intro H. unfold parse_led_post. now rewrite H. Qed.

Lemma parse_led_post_whole (w : list byte) (buf : list byte) (len : Z) :
  List.firstn (Z.to_nat len) buf = w ->
  parse_post buf len = parse_post w (Z.of_nat (List.length w)).
Proof.
  intro H. apply parse_led_post_slice. rewrite H.
  rewrite Nat2Z.id. symmetry. apply List.firstn_all.
Qed.

(** A run of [MORE] chunks that fits is stored chunk after chunk. *)
Lemma more_run_fits (chunks : list (list byte)) :
  forall st : led_statics,
    led_statics_ok st ->
    cursor st + body_length chunks <= sizeof_post_payload_buf ->
    let os := deliver handler st
                (List.map (fun c => (HTTP_SERVER_DATA_MORE, mk_request c)) chunks) in
    List.Forall (fun o => retval o = 0 /\ calls o = []) os
    /\ led_statics_ok (final_statics st os)
    /\ cursor (final_statics st os) = cursor st + body_length chunks
    /\ accumulated (final_statics st os) = accumulated st ++ List.concat chunks.
Proof.
  induction chunks as [| c chunks IH]; intros st Hst Hfit; cbv zeta.
  - cbn. unfold body_length. cbn. rewrite List.app_nil_r.
    repeat split; try apply Hst; try constructor. lia.
  - rewrite body_length_cons in Hfit.
    pose proof (body_length_nonneg chunks) as Hpos.
    assert (Hc : 0 <= cursor st) by (destruct Hst as [[? ?] _]; assumption).
    assert (Hreq : request_ok (mk_request c))
      by (apply small_request_ok; unfold sizeof_post_payload_buf in Hfit; lia).
    assert (Hfit1 : cursor st + data_len (mk_request c) <= sizeof_post_payload_buf)
      by (cbn [data_len mk_request]; lia).
    cbn [List.map deliver].
    pose proof (led_handler_keeps_ok leds_dev json_obj_parse st
                  HTTP_SERVER_DATA_MORE (mk_request c) empty_response Hst Hreq)
      as Hok1.
    pose proof (accumulated_fits st (mk_request c) Hst Hreq Hfit1) as Hacc.
    pose proof (led_handler_fits leds_dev json_obj_parse st HTTP_SERVER_DATA_MORE
                  (mk_request c) empty_response ltac:(discriminate) Hst Hreq Hfit1)
      as Hstep.
    cbv zeta in Hstep. cbn [status_eqb] in Hstep.
    rewrite Hstep in Hok1 |- *. cbn [statics] in Hok1 |- *.
    set (st1 := {| post_payload_buf :=
                     memcpy (post_payload_buf st) (cursor st)
                            (data (mk_request c)) (data_len (mk_request c));
                   cursor := cursor st + data_len (mk_request c) |}) in *.
    assert (Hfit' : cursor st1 + body_length chunks <= sizeof_post_payload_buf)
      by (subst st1; cbn [cursor data_len mk_request]; lia).
    destruct (IH st1 Hok1 Hfit') as (Hall & Hokf & Hcur & Haccf).
    unfold final_statics in *. cbn [List.fold_left statics].
    split; [constructor; [cbn; auto | exact Hall] |].
    split; [exact Hokf |].
    split.
    + rewrite Hcur. subst st1. cbn [cursor data_len mk_request].
      rewrite body_length_cons. lia.
    + rewrite Haccf. cbn [List.concat]. rewrite List.app_assoc. f_equal.
      unfold accumulated at 1. subst st1. cbn [cursor post_payload_buf].
      exact Hacc.
Qed.

(** A request that fits: every event is accepted, the cursor ends at 0 and
    the only driver calls are those [parse_led_post] makes on the whole
    accumulated body. *)
Lemma request_run_fits (chunks : list (list byte)) (last : list byte)
    (st : led_statics) :
  led_statics_ok st ->
  cursor st + body_length (chunks ++ [last]) <= sizeof_post_payload_buf ->
  let os := deliver handler st (request_events chunks last) in
  let w := accumulated st ++ List.concat chunks ++ last in
  List.Forall (fun o => retval o = 0) os
  /\ all_calls os = parse_post w (Z.of_nat (List.length w))
  /\ cursor (final_statics st os) = 0.
Proof.
  intros Hst Hfit. cbv zeta.
  rewrite body_length_last in Hfit.
  assert (Hfitm : cursor st + body_length chunks <= sizeof_post_payload_buf) by lia.
  destruct (more_run_fits chunks st Hst Hfitm) as (Hall & Hokm & Hcur & Hacc).
  unfold request_events. rewrite deliver_app.
  set (osm := deliver handler st
                (List.map (fun c => (HTTP_SERVER_DATA_MORE, mk_request c)) chunks)) in *.
  set (stm := final_statics st osm) in *.
  pose proof (body_length_nonneg chunks) as Hpos.
  assert (Hc : 0 <= cursor st) by (destruct Hst as [[? ?] _]; assumption).
  assert (Hreq : request_ok (mk_request last))
    by (apply small_request_ok; unfold sizeof_post_payload_buf in Hfit; lia).
  assert (Hfit1 : cursor stm + data_len (mk_request last) <= sizeof_post_payload_buf)
    by (rewrite Hcur; cbn [data_len mk_request]; lia).
  pose proof (accumulated_fits stm (mk_request last) Hokm Hreq Hfit1) as Hlast.
  pose proof (led_handler_fits leds_dev json_obj_parse stm HTTP_SERVER_DATA_FINAL
                (mk_request last) empty_response ltac:(discriminate) Hokm Hreq Hfit1)
    as Hstep.
  cbv zeta in Hstep. cbn [status_eqb] in Hstep.
  cbn [deliver]. rewrite Hstep.
  split; [| split].
  - apply List.Forall_app. split.
    + eapply List.Forall_impl; [| exact Hall]. cbn. intros o [Ho _]. exact Ho.
    + constructor; [reflexivity | constructor].
  - unfold all_calls. rewrite List.map_app, List.concat_app.
    assert (Hnone : List.concat (List.map calls osm) = []).
    { clear - Hall. induction Hall as [| o os [_ Ho] _ IH]; cbn.
      - reflexivity.
      - rewrite Ho, IH. reflexivity. }
    rewrite Hnone. cbn [List.map List.concat calls app].
    rewrite List.app_nil_r.
    apply parse_led_post_whole.
    rewrite Hlast, Hacc. cbn [data mk_request].
    now rewrite <- List.app_assoc.
  - unfold final_statics. rewrite List.fold_left_app. reflexivity.
Qed.

(** A request that does not fit: one of its events is refused. *)
Lemma request_run_over (chunks : list (list byte)) (last : list byte) :
  forall st : led_statics,
    led_statics_ok st ->
    List.Forall (fun c => Z.of_nat (List.length c) + 32 <= SIZE_MAX)
                (chunks ++ [last]) ->
    cursor st + body_length (chunks ++ [last]) > sizeof_post_payload_buf ->
    List.Exists (fun o => retval o = - ENOMEM)
                (deliver handler st (request_events chunks last)).
Proof.
  induction chunks as [| c chunks IH]; intros st Hst Hsmall Hover.
  - cbn [app] in Hsmall, Hover. inversion Hsmall as [| ? ? Hl _]; subst.
    unfold body_length in Hover. cbn [List.concat] in Hover.
    rewrite List.app_nil_r in Hover.
    unfold request_events. cbn [List.map app deliver].
    apply List.Exists_cons_hd.
    rewrite led_handler_over; try assumption;
      [reflexivity | discriminate | apply mk_request_ok, Hl].
  - cbn [app] in Hsmall, Hover. inversion Hsmall as [| ? ? Hl Hrest]; subst.
    rewrite body_length_cons in Hover.
    assert (Hreq : request_ok (mk_request c)) by (apply mk_request_ok, Hl).
    unfold request_events. cbn [List.map app deliver].
    destruct (Z_le_gt_dec (cursor st + data_len (mk_request c))
                          sizeof_post_payload_buf) as [Hfit | Hnow].
    + apply List.Exists_cons_tl.
      pose proof (led_handler_keeps_ok leds_dev json_obj_parse st
                    HTTP_SERVER_DATA_MORE (mk_request c) empty_response Hst Hreq)
        as Hok1.
      apply (IH _ Hok1 Hrest).
      rewrite led_handler_fits by (discriminate || assumption).
      cbn [status_eqb statics cursor data_len mk_request] in *. lia.
    + apply List.Exists_cons_hd.
      rewrite led_handler_over by (discriminate || assumption). reflexivity.
Qed.

End LedRuns.

(** C10 -- the capacity is 32 bytes.  The accumulator is 32 bytes long.  A
    [MORE] or [FINAL] event is refused with [-ENOMEM] exactly when
    [cursor + length] exceeds 32, and accepted with 0 exactly when it does
    not.  For a whole request delivered to an accumulator holding [cursor]
    bytes: when the body brings the total above 32 bytes one of the events
    is refused with [-ENOMEM]; when it does not, every event is accepted. *)
Theorem capacity_is_32 :
  forall (leds_dev : option device)
         (json_obj_parse : list byte -> list json_obj_descr -> Z -> Z * led_command)
         (st : led_statics) (status : http_data_status)
         (req : http_request_ctx) (resp : http_response_ctx)
         (chunks : list (list byte)) (last : list byte),
    led_statics_ok st -> request_ok req ->
    status <> HTTP_SERVER_DATA_ABORTED ->
    List.Forall (fun c => Z.of_nat (List.length c) + 32 <= SIZE_MAX) (chunks ++ [last]) ->
    let handler := led_handler leds_dev json_obj_parse in
    sizeof_post_payload_buf = 32
    /\ (retval (handler st status req resp) = - ENOMEM
        <-> cursor st + data_len req > 32)
    /\ (retval (handler st status req resp) = 0
        <-> cursor st + data_len req <= 32)
    /\ (cursor st + body_length (chunks ++ [last]) > 32 ->
        List.Exists (fun o => retval o = - ENOMEM)
                    (deliver handler st (request_events chunks last)))
    /\ (cursor st + body_length (chunks ++ [last]) <= 32 ->
        List.Forall (fun o => retval o = 0)
                    (deliver handler st (request_events chunks last))).
Proof.
  intros leds_dev parse st status req resp chunks last Hst Hreq Hs Hsmall. cbv zeta.
  split; [reflexivity |].
  assert (Hcases :
            (cursor st + data_len req > 32
             /\ retval (led_handler leds_dev parse st status req resp) = - ENOMEM)
            \/ (cursor st + data_len req <= 32
                /\ retval (led_handler leds_dev parse st status req resp) = 0)).
  { destruct (Z_le_gt_dec (cursor st + data_len req) sizeof_post_payload_buf)
      as [Hfit | Hover].
    - right. split; [exact Hfit |].
      rewrite led_handler_fits by assumption.
      destruct (status_eqb status HTTP_SERVER_DATA_FINAL); reflexivity.
    - left. split; [exact Hover |].
      rewrite led_handler_over by assumption. reflexivity. }
  split; [| split; [| split]].
  - destruct Hcases as [[Hover Hr] | [Hfit Hr]]; rewrite Hr; split; intro H;
      try assumption; try reflexivity; try lia.
    unfold ENOMEM in H. discriminate.
  - destruct Hcases as [[Hover Hr] | [Hfit Hr]]; rewrite Hr; split; intro H;
      try assumption; try reflexivity; try lia.
    unfold ENOMEM in H. discriminate.
  - intro Hover. apply request_run_over; assumption.
  - intro Hfit. apply (request_run_fits leds_dev parse chunks last st Hst Hfit).
Qed.

Lemma capacity_is_32_witness :
  retval (led_handler None json_obj_parse_model led_statics_init
            HTTP_SERVER_DATA_MORE full_chunk empty_response) = 0
  /\ retval (led_handler None json_obj_parse_model full_statics
               HTTP_SERVER_DATA_MORE one_byte_chunk empty_response) = - ENOMEM
  /\ List.Exists (fun o => retval o = - ENOMEM)
       (deliver (led_handler None json_obj_parse_model) led_statics_init
          (request_events [List.repeat x41 32] [x42])).
Proof.
  assert (Hone : request_ok one_byte_chunk)
    by (apply small_request_ok; cbn; lia).
  assert (Hfull : request_ok full_chunk)
    by (apply small_request_ok; cbn; lia).
  assert (Hs : HTTP_SERVER_DATA_MORE <> HTTP_SERVER_DATA_ABORTED) by discriminate.
  assert (Hsmall : List.Forall (fun c => Z.of_nat (List.length c) + 32 <= SIZE_MAX)
                     ([List.repeat x41 32] ++ [[x42]])).
  { repeat (apply List.Forall_cons; [rewrite SIZE_MAX_value; cbn; lia |]).
    apply List.Forall_nil. }
  split; [| split].
  - apply (capacity_is_32 None json_obj_parse_model led_statics_init
             HTTP_SERVER_DATA_MORE full_chunk empty_response
             [List.repeat x41 32] [x42] led_statics_init_ok Hfull Hs Hsmall).
    cbn. lia.
  - apply (capacity_is_32 None json_obj_parse_model full_statics
             HTTP_SERVER_DATA_MORE one_byte_chunk empty_response
             [List.repeat x41 32] [x42] full_statics_ok Hone Hs Hsmall).
    cbn. lia.
  - apply (capacity_is_32 None json_obj_parse_model led_statics_init
             HTTP_SERVER_DATA_MORE full_chunk empty_response
             [List.repeat x41 32] [x42] led_statics_init_ok Hfull Hs Hsmall).
    vm_compute. reflexivity.
Defined.

(** ** Decoding and actuation *)

(** C4 (as amended) -- parse round trip.  Let the decoder decode the wire
    encoding of [{led_num: 3, led_state: true}] in full to that command.
    When the encoding reaches an empty accumulator as one request -- in one
    [FINAL] event, or cut into any number of [MORE] chunks closed by a
    [FINAL] one -- the driver is called exactly once, [led_on] with LED 3,
    provided the LED device exists; when [leds_dev] is [NULL] no driver
    call is made. *)
Theorem parse_round_trip :
  forall (leds_dev : option device)
         (json_obj_parse : list byte -> list json_obj_descr -> Z -> Z * led_command)
         (st : led_statics) (chunks : list (list byte)) (last : list byte),
    led_statics_ok st -> cursor st = 0 ->
    List.concat chunks ++ last = encode_led_command led3_on ->
    json_obj_parse (encode_led_command led3_on) led_command_descr
      (ARRAY_SIZE led_command_descr)
      = (BIT_MASK (ARRAY_SIZE led_command_descr), led3_on) ->
    all_calls (deliver (led_handler leds_dev json_obj_parse) st
                 (request_events chunks last))
      = match leds_dev with
        | Some dev => [led_on dev 3]
        | None => []
        end.
Proof.
  intros leds_dev parse st chunks last Hst Hc0 Hsplit Hdec.
  assert (Hlen : body_length (chunks ++ [last]) = 30).
  { unfold body_length. rewrite List.concat_app. cbn [List.concat].
    rewrite List.app_nil_r, Hsplit. reflexivity. }
  assert (Hfit : cursor st + body_length (chunks ++ [last]) <= sizeof_post_payload_buf)
    by (rewrite Hc0, Hlen; unfold sizeof_post_payload_buf; lia).
  destruct (request_run_fits leds_dev parse chunks last st Hst Hfit)
    as (_ & Hcalls & _).
  rewrite Hcalls.
  assert (Hacc : accumulated st = []) by (unfold accumulated; now rewrite Hc0).
  rewrite Hacc. cbn [app]. rewrite Hsplit.
  rewrite (parse_led_post_accepts leds_dev parse _ _ led3_on).
  - reflexivity.
  - rewrite Nat2Z.id, List.firstn_all. exact Hdec.
Qed.

Lemma parse_round_trip_witness :
  all_calls (deliver (led_handler (Some "leds"%string) json_obj_parse_model)
               led_statics_init
               (request_events [] (encode_led_command led3_on)))
    = [led_on "leds"%string 3]
  /\ all_calls (deliver (led_handler (Some "leds"%string) json_obj_parse_model)
                  led_statics_init
                  (request_events
                     [List.firstn 7 (encode_led_command led3_on);
                      List.firstn 12 (List.skipn 7 (encode_led_command led3_on))]
                     (List.skipn 19 (encode_led_command led3_on))))
       = [led_on "leds"%string 3].
Proof.
  split.
  - apply (parse_round_trip (Some "leds"%string) json_obj_parse_model
             led_statics_init [] (encode_led_command led3_on)
             led_statics_init_ok eq_refl eq_refl eq_refl).
  - apply (parse_round_trip (Some "leds"%string) json_obj_parse_model
             led_statics_init
             [List.firstn 7 (encode_led_command led3_on);
              List.firstn 12 (List.skipn 7 (encode_led_command led3_on))]
             (List.skipn 19 (encode_led_command led3_on))
             led_statics_init_ok eq_refl eq_refl eq_refl).
Defined.

(** C4 as stated fails: without an LED device ([leds_dev] is [NULL]) the
    encoding of [{led_num: 3, led_state: true}], decoded in full, leads to
    no driver call at all. *)
Lemma round_trip_without_led_device :
  json_obj_parse_model (encode_led_command led3_on) led_command_descr
    (ARRAY_SIZE led_command_descr)
    = (BIT_MASK (ARRAY_SIZE led_command_descr), led3_on)
  /\ all_calls (deliver (led_handler None json_obj_parse_model) led_statics_init
                  (request_events [] (encode_led_command led3_on))) = []
  /\ ~ (exists dev : device,
          all_calls (deliver (led_handler None json_obj_parse_model) led_statics_init
                       (request_events [] (encode_led_command led3_on)))
            = [led_on dev 3]).
Proof.
  split; [reflexivity |]. split; [reflexivity |].
  intros [dev H]. vm_compute in H. discriminate.
Qed.

(** ** What the transport is told *)

(** C8 (as amended) -- error signalling.  A capacity violation makes
    [led_handler] put the cursor back to 0 and return [-ENOMEM], a value
    other than 0; a formatter failure makes [uptime_handler] return the
    formatter's negative value and produce no response.  A body that the
    decoder does not decode in full is not reported: [led_handler] puts the
    cursor back to 0, makes no driver call and returns 0.  In each case the
    handler returns to the transport. *)
Theorem error_signalling :
  forall (leds_dev : option device)
         (json_obj_parse : list byte -> list json_obj_descr -> Z -> Z * led_command)
         (size : Z) (snprintf : list byte -> Z -> Z -> Z * list byte) (uptime : Z)
         (lst : led_statics) (ust : uptime_statics) (status : http_data_status)
         (req : http_request_ctx) (resp : http_response_ctx),
    led_statics_ok lst -> request_ok req ->
    status <> HTTP_SERVER_DATA_ABORTED ->
    (cursor lst + data_len req > sizeof_post_payload_buf ->
       let o := led_handler leds_dev json_obj_parse lst status req resp in
       retval o = - ENOMEM /\ retval o <> 0 /\ cursor (statics o) = 0)
    /\ (fst (snprintf (uptime_buf ust) size uptime) < 0 ->
       let o := uptime_handler size snprintf uptime ust
                  HTTP_SERVER_DATA_FINAL req resp in
       retval o = fst (snprintf (uptime_buf ust) size uptime)
       /\ retval o <> 0 /\ response o = resp)
    /\ (cursor lst + data_len req <= sizeof_post_payload_buf ->
        fst (json_obj_parse (accumulated lst ++ data req) led_command_descr
               (ARRAY_SIZE led_command_descr))
          <> BIT_MASK (ARRAY_SIZE led_command_descr) ->
       let o := led_handler leds_dev json_obj_parse lst
                  HTTP_SERVER_DATA_FINAL req resp in
       retval o = 0 /\ cursor (statics o) = 0 /\ calls o = []).
Proof.
  intros leds_dev parse size snprintf uptime lst ust status req resp Hst Hreq Hs.
  split; [| split].
  - intro Hover. cbv zeta.
    rewrite led_handler_over by assumption. cbn.
    repeat split. unfold ENOMEM. discriminate.
  - intro Hneg. cbv zeta. unfold uptime_handler. cbn [status_eqb].
    destruct (snprintf (uptime_buf ust) size uptime) as [ret buf'].
    cbn [fst] in *. destruct (Z.ltb_spec ret 0); [| lia].
    cbn. repeat split. lia.
  - intros Hfit Hbad. cbv zeta.
    rewrite led_handler_fits by (discriminate || assumption).
    cbn [status_eqb retval statics cursor calls].
    repeat split.
    apply parse_led_post_rejects.
    rewrite accumulated_fits by assumption. exact Hbad.
Qed.

Lemma error_signalling_witness :
  retval (led_handler None json_obj_parse_model full_statics
            HTTP_SERVER_DATA_MORE one_byte_chunk empty_response) = - ENOMEM
  /\ retval (uptime_handler 23 snprintf_encoding_error 123456 uptime_statics_init
               HTTP_SERVER_DATA_FINAL empty_request empty_response) = -1
  /\ retval (led_handler None json_obj_parse_model led_statics_init
               HTTP_SERVER_DATA_FINAL (mk_request (encode_led_num_only 3))
               empty_response) = 0.
Proof.
  assert (Hone : request_ok one_byte_chunk)
    by (apply small_request_ok; cbn; lia).
  assert (Hbad : request_ok (mk_request (encode_led_num_only 3)))
    by (apply small_request_ok; cbn; lia).
  assert (Hs : HTTP_SERVER_DATA_MORE <> HTTP_SERVER_DATA_ABORTED) by discriminate.
  split; [| split].
  - destruct (error_signalling None json_obj_parse_model 23
                snprintf_encoding_error 123456 full_statics uptime_statics_init
                HTTP_SERVER_DATA_MORE one_byte_chunk empty_response
                full_statics_ok Hone Hs) as (Hcap & _ & _).
    apply Hcap. reflexivity.
  - destruct (error_signalling None json_obj_parse_model 23
                snprintf_encoding_error 123456 full_statics uptime_statics_init
                HTTP_SERVER_DATA_MORE empty_request empty_response
                full_statics_ok ltac:(apply small_request_ok; cbn; lia) Hs)
      as (_ & Henc & _).
    apply Henc. reflexivity.
  - destruct (error_signalling None json_obj_parse_model 23
                snprintf_encoding_error 123456 led_statics_init uptime_statics_init
                HTTP_SERVER_DATA_MORE (mk_request (encode_led_num_only 3))
                empty_response led_statics_init_ok Hbad Hs) as (_ & _ & Hmal).
    apply Hmal; [vm_compute; discriminate | vm_compute; discriminate].
Defined.

(** C8 as stated fails: a [FINAL] event completing the body [{"led_num":3}],
    which the decoder does not decode in full (it returns 1, not 3), is
    answered with 0, the value of success. *)
Lemma malformed_payload_returns_success :
  fst (json_obj_parse_model (encode_led_num_only 3) led_command_descr
         (ARRAY_SIZE led_command_descr)) = 1
  /\ BIT_MASK (ARRAY_SIZE led_command_descr) = 3
  /\ retval (led_handler (Some "leds"%string) json_obj_parse_model led_statics_init
               HTTP_SERVER_DATA_FINAL (mk_request (encode_led_num_only 3))
               empty_response) = 0.
Proof. repeat split. Qed.

(** * Further properties of the handlers *)

(** ** Echo: the diagnostic counter and statelessness *)

Lemma echo_more_counter (mores : list http_request_ctx) :
  forall st : echo_statics,
    0 <= processed st < 2 ^ SIZE_WIDTH ->
    processed (final_statics st
                 (deliver echo_handler st
                    (List.map (pair HTTP_SERVER_DATA_MORE) mores)))
      = (processed st + sum_data_len mores) mod 2 ^ SIZE_WIDTH.
Proof.
  induction mores as [| r mores IH]; intros st Hp.
  - cbn. rewrite Z.add_0_r. symmetry. apply Z.mod_small. exact Hp.
  - cbn [List.map deliver]. unfold final_statics. cbn [List.fold_left].
    fold (final_statics
            (statics (echo_handler st HTTP_SERVER_DATA_MORE r empty_response))
            (deliver echo_handler
               (statics (echo_handler st HTTP_SERVER_DATA_MORE r empty_response))
               (List.map (pair HTTP_SERVER_DATA_MORE) mores))).
    rewrite IH.
    + change (sum_data_len (r :: mores)) with (data_len r + sum_data_len mores).
      cbn [echo_handler status_eqb statics processed].
      unfold size_add. rewrite Zplus_mod_idemp_l. f_equal. lia.
    + cbn [echo_handler status_eqb statics processed]. unfold size_add.
      apply Z.mod_pos_bound. unfold SIZE_WIDTH. lia.
Qed.

(** X1 -- the byte counter of [echo_handler].  After a run of [MORE] events
    the counter holds the count it started with plus the lengths received,
    reduced modulo [2^32]; the [FINAL] event that closes the request puts it
    back to 0, whatever it had reached. *)
Theorem echo_processed_counts :
  forall (mores : list http_request_ctx) (final : http_request_ctx)
         (st : echo_statics),
    0 <= processed st < 2 ^ SIZE_WIDTH ->
    processed (final_statics st
                 (deliver echo_handler st
                    (List.map (pair HTTP_SERVER_DATA_MORE) mores)))
      = (processed st + sum_data_len mores) mod 2 ^ SIZE_WIDTH
    /\ processed (final_statics st
                    (deliver echo_handler st
                       (List.map (pair HTTP_SERVER_DATA_MORE) mores
                          ++ [(HTTP_SERVER_DATA_FINAL, final)]))) = 0.
Proof.
  intros mores final st Hp. split.
  - apply echo_more_counter, Hp.
  - rewrite deliver_app. unfold final_statics. rewrite List.fold_left_app.
    reflexivity.
Qed.

Lemma echo_processed_counts_witness :
  processed (final_statics {| processed := 4294967290 |}
               (deliver echo_handler {| processed := 4294967290 |}
                  (List.map (pair HTTP_SERVER_DATA_MORE)
                     [ping_request; ping_request]))) = 2.
Proof.
  apply (echo_processed_counts [ping_request; ping_request] empty_request
           {| processed := 4294967290 |}).
  cbn [processed]. unfold SIZE_WIDTH. lia.
Defined.

(** X2 -- [echo_handler] answers each event on its own.  Over any run of
    events, in any order of statuses and from any statics, every call
    returns 0 and makes no driver call, and the response to an event is the
    event's own payload (flagged final on [FINAL]), or nothing on
    [ABORTED]: earlier events never show in a later response. *)
Theorem echo_run_stateless :
  forall (evs : list chunk_event) (st : echo_statics),
    List.map response (deliver echo_handler st evs) = List.map echo_response evs
    /\ List.Forall (fun o => retval o = 0 /\ calls o = [])
                   (deliver echo_handler st evs).
Proof.
  induction evs as [| [s r] evs IH]; intro st.
  - split; constructor.
  - cbn [deliver List.map].
    destruct (IH (statics (echo_handler st s r empty_response))) as [Hresp Hall].
    split.
    + rewrite Hresp. f_equal.
      unfold echo_handler, echo_response. cbn [fst snd].
      destruct (status_eqb s HTTP_SERVER_DATA_ABORTED); reflexivity.
    + constructor; [| exact Hall].
      unfold echo_handler.
      destruct (status_eqb s HTTP_SERVER_DATA_ABORTED); cbn; auto.
Qed.

(** ** Uptime: one response per request *)

(** X3 -- [uptime_handler] answers once per request.  Events that are not
    [FINAL] return 0, leave the response context cleared and the statics
    untouched; the [FINAL] event that follows them is the only one to
    produce a response, the one the formatter's result gives when that
    result is not negative. *)
Theorem uptime_single_response :
  forall (size : Z) (snprintf : list byte -> Z -> Z -> Z * list byte) (uptime : Z)
         (st : uptime_statics) (pre : list chunk_event) (final : http_request_ctx)
         (ret : Z) (buf' : list byte),
    List.Forall (fun ev => fst ev <> HTTP_SERVER_DATA_FINAL) pre ->
    snprintf (uptime_buf st) size uptime = (ret, buf') ->
    0 <= ret ->
    let os := deliver (uptime_handler size snprintf uptime) st
                (pre ++ [(HTTP_SERVER_DATA_FINAL, final)]) in
    List.map response os
      = List.repeat empty_response (List.length pre)
          ++ [ {| body := buf'; body_len := ret; final_chunk := true |} ]
    /\ List.Forall (fun o => retval o = 0 /\ calls o = []) os.
Proof.
  intros size snprintf uptime st pre final ret buf' Hpre Hfmt Hret. cbv zeta.
  induction Hpre as [| [s r] pre Hs Hpre IH].
  - cbn [app deliver List.map List.length List.repeat].
    unfold uptime_handler. cbn [status_eqb]. rewrite Hfmt.
    destruct (Z.ltb_spec ret 0); [lia |].
    split; [reflexivity | constructor; [cbn; auto | constructor]].
  - cbn [fst] in Hs. apply status_eqb_neq in Hs.
    cbn [app deliver List.map List.length List.repeat].
    assert (Hstep : uptime_handler size snprintf uptime st s r empty_response
                    = {| retval := 0; response := empty_response;
                         statics := st; calls := [] |}).
    { unfold uptime_handler. now rewrite Hs. }
    rewrite Hstep. cbn [statics response].
    destruct IH as [Hresp Hall].
    split; [now rewrite Hresp | constructor; [cbn; auto | exact Hall]].
Qed.

Lemma uptime_single_response_witness :
  List.map response
    (deliver (uptime_handler 23 snprintf_PRId64_model 123456) uptime_statics_init
       ([(HTTP_SERVER_DATA_MORE, ping_request);
         (HTTP_SERVER_DATA_ABORTED, empty_request)]
          ++ [(HTTP_SERVER_DATA_FINAL, empty_request)]))
  = List.repeat empty_response 2
      ++ [ {| body := list_byte_of_string "123456" ++ List.repeat x00 17;
              body_len := 6; final_chunk := true |} ].
Proof.
  assert (Hpre : List.Forall (fun ev : chunk_event => fst ev <> HTTP_SERVER_DATA_FINAL)
                   [(HTTP_SERVER_DATA_MORE, ping_request);
                    (HTTP_SERVER_DATA_ABORTED, empty_request)])
    by (repeat (apply List.Forall_cons; [discriminate |]); apply List.Forall_nil).
  apply (uptime_single_response 23 snprintf_PRId64_model 123456 uptime_statics_init
           _ empty_request 6 (list_byte_of_string "123456" ++ List.repeat x00 17)
           Hpre eq_refl).
  lia.
Defined.

(** ** The LED handler: what it never does *)

Lemma parse_led_post_shape (leds_dev : option device)
    (json_obj_parse : list byte -> list json_obj_descr -> Z -> Z * led_command)
    (buf : list byte) (len : Z) :
  parse_led_post leds_dev json_obj_parse buf len = []
  \/ exists (dev : device) (cmd : led_command),
       leds_dev = Some dev
       /\ json_obj_parse (List.firstn (Z.to_nat len) buf) led_command_descr
            (ARRAY_SIZE led_command_descr)
          = (BIT_MASK (ARRAY_SIZE led_command_descr), cmd)
       /\ parse_led_post leds_dev json_obj_parse buf len = [actuation dev cmd].
Proof.
  unfold parse_led_post.
  destruct (json_obj_parse _ _ _) as [ret cmd].
  destruct (Z.eqb_spec ret (BIT_MASK (ARRAY_SIZE led_command_descr))) as [-> | _];
    cbn [negb]; [| now left].
  destruct leds_dev as [dev |]; [| now left].
  right. exists dev, cmd. split; [reflexivity | split; [reflexivity |]].
  unfold actuation. destruct (led_state cmd); reflexivity.
Qed.

Lemma led_handler_calls (leds_dev : option device)
    (json_obj_parse : list byte -> list json_obj_descr -> Z -> Z * led_command)
    (st : led_statics) (status : http_data_status)
    (req : http_request_ctx) (resp : http_response_ctx) :
  let o := led_handler leds_dev json_obj_parse st status req resp in
  calls o = []
  \/ (status = HTTP_SERVER_DATA_FINAL /\ retval o = 0
      /\ exists (dev : device) (cmd : led_command),
           leds_dev = Some dev /\ calls o = [actuation dev cmd]).
Proof.
  cbv zeta. unfold led_handler.
  destruct (status_eqb status HTTP_SERVER_DATA_ABORTED); [now left |].
  destruct (size_add (data_len req) (cursor st) >? sizeof_post_payload_buf);
    [now left |].
  destruct (status_eqb status HTTP_SERVER_DATA_FINAL) eqn:Hfin; [| now left].
  apply status_eqb_eq in Hfin. cbn [calls retval].
  destruct (parse_led_post_shape leds_dev json_obj_parse
              (memcpy (post_payload_buf st) (cursor st) (data req) (data_len req))
              (size_add (cursor st) (data_len req)))
    as [Hnone | (dev & cmd & Hdev & _ & Hcall)].
  - now left.
  - right. split; [exact Hfin | split; [reflexivity |]].
    exists dev, cmd. split; assumption.
Qed.

(** X4 -- what [led_handler] never does.  For well-formed statics and a
    well-formed request context, and for any status, decoder and device: it
    never writes the response context; it returns 0 or [-ENOMEM] and
    nothing else; it makes at most one driver call, and makes one only on a
    [FINAL] event that it answers with 0, with the LED device present; and
    when it returns [-ENOMEM] it has made no driver call, has put the
    cursor at 0 and has left the buffer as it was. *)
Theorem led_handler_never :
  forall (leds_dev : option device)
         (json_obj_parse : list byte -> list json_obj_descr -> Z -> Z * led_command)
         (st : led_statics) (status : http_data_status)
         (req : http_request_ctx) (resp : http_response_ctx),
    led_statics_ok st -> request_ok req ->
    let o := led_handler leds_dev json_obj_parse st status req resp in
    response o = resp
    /\ (retval o = 0 \/ retval o = - ENOMEM)
    /\ (List.length (calls o) <= 1)%nat
    /\ (calls o <> [] ->
        status = HTTP_SERVER_DATA_FINAL /\ retval o = 0 /\ leds_dev <> None)
    /\ (retval o = - ENOMEM ->
        calls o = [] /\ cursor (statics o) = 0
        /\ post_payload_buf (statics o) = post_payload_buf st).
Proof.
  intros leds_dev parse st status req resp Hst Hreq. cbv zeta.
  pose proof (led_handler_calls leds_dev parse st status req resp) as Hcalls.
  cbv zeta in Hcalls.
  assert (Hshape :
            (led_handler leds_dev parse st status req resp
             = {| retval := - ENOMEM; response := resp;
                  statics := {| post_payload_buf := post_payload_buf st;
                                cursor := 0 |};
                  calls := [] |})
            \/ (retval (led_handler leds_dev parse st status req resp) = 0
                /\ response (led_handler leds_dev parse st status req resp) = resp)).
  { destruct (status_eqb status HTTP_SERVER_DATA_ABORTED) eqn:Hab.
    - apply status_eqb_eq in Hab. subst status.
      right. rewrite led_handler_aborted. cbn. auto.
    - apply status_eqb_neq in Hab.
      destruct (Z_le_gt_dec (cursor st + data_len req) sizeof_post_payload_buf)
        as [Hfit | Hover].
      + right. rewrite led_handler_fits by assumption.
        destruct (status_eqb status HTTP_SERVER_DATA_FINAL); cbn; auto.
      + left. apply led_handler_over; assumption. }
  split; [| split; [| split; [| split]]].
  - destruct Hshape as [-> | [_ Hresp]]; [reflexivity | exact Hresp].
  - destruct Hshape as [-> | [Hret _]]; [now right | now left].
  - destruct Hcalls as [-> | (_ & _ & dev & cmd & _ & ->)]; cbn; lia.
  - intro Hne. destruct Hcalls as [Hnil | (Hfin & Hret & dev & cmd & Hdev & _)];
      [contradiction |].
    split; [exact Hfin | split; [exact Hret |]]. rewrite Hdev. discriminate.
  - intro Herr. destruct Hshape as [-> | [Hret _]]; [cbn; auto |].
    rewrite Hret in Herr. unfold ENOMEM in Herr. discriminate.
Qed.

Lemma led_handler_never_witness :
  calls (led_handler (Some "leds"%string) json_obj_parse_model led_statics_init
           HTTP_SERVER_DATA_FINAL (mk_request (encode_led_command led3_on))
           empty_response) <> []
  /\ retval (led_handler (Some "leds"%string) json_obj_parse_model led_statics_init
               HTTP_SERVER_DATA_FINAL (mk_request (encode_led_command led3_on))
               empty_response) = 0
  /\ calls (led_handler None json_obj_parse_model full_statics
              HTTP_SERVER_DATA_FINAL one_byte_chunk empty_response) = [].
Proof.
  assert (Hne : calls (led_handler (Some "leds"%string) json_obj_parse_model
                         led_statics_init HTTP_SERVER_DATA_FINAL
                         (mk_request (encode_led_command led3_on))
                         empty_response) <> [])
    by (vm_compute; discriminate).
  assert (Hcmd : request_ok (mk_request (encode_led_command led3_on)))
    by (apply small_request_ok; vm_compute; discriminate).
  assert (Hone : request_ok one_byte_chunk)
    by (apply small_request_ok; cbn; lia).
  split; [exact Hne |]. split.
  - destruct (led_handler_never (Some "leds"%string) json_obj_parse_model
                led_statics_init HTTP_SERVER_DATA_FINAL
                (mk_request (encode_led_command led3_on)) empty_response
                led_statics_init_ok Hcmd)
      as (_ & _ & _ & Hcall & _).
    apply (Hcall Hne).
  - destruct (led_handler_never None json_obj_parse_model full_statics
                HTTP_SERVER_DATA_FINAL one_byte_chunk empty_response
                full_statics_ok Hone)
      as (_ & _ & _ & _ & Hover).
    apply Hover. reflexivity.
Defined.

Lemma all_calls_app {S : Type} (os1 os2 : list (outcome S)) :
  all_calls (os1 ++ os2) = all_calls os1 ++ all_calls os2.
Proof. unfold all_calls. now rewrite List.map_app, List.concat_app. Qed.

(** X5 -- driver calls are bounded by completed requests.  Over any run of
    well-formed events from well-formed statics, and for any decoder,
    [led_handler] calls the driver at most as many times as the run has
    [FINAL] events; a run with no [FINAL] event -- a request cut by
    [ABORTED], say -- calls it never. *)
Theorem led_calls_bounded_by_finals :
  forall (leds_dev : option device)
         (json_obj_parse : list byte -> list json_obj_descr -> Z -> Z * led_command)
         (evs : list chunk_event) (st : led_statics),
    led_statics_ok st ->
    List.Forall (fun ev => request_ok (snd ev)) evs ->
    (List.length (all_calls (deliver (led_handler leds_dev json_obj_parse) st evs))
     <= final_events evs)%nat
    /\ (final_events evs = 0%nat ->
        all_calls (deliver (led_handler leds_dev json_obj_parse) st evs) = []).
Proof.
  intros leds_dev parse evs.
  assert (Hbound : forall st,
             led_statics_ok st ->
             List.Forall (fun ev => request_ok (snd ev)) evs ->
             (List.length (all_calls (deliver (led_handler leds_dev parse) st evs))
              <= final_events evs)%nat).
  { induction evs as [| [s r] evs IH]; intros st Hst Hevs.
    - cbn. lia.
    - inversion Hevs as [| ? ? Hr Hrest]; subst. cbn [snd] in Hr.
      cbn [deliver].
      change (all_calls (?o :: ?os)) with (calls o ++ all_calls os).
      rewrite List.length_app.
      specialize (IH (statics (led_handler leds_dev parse st s r empty_response))
                    (led_handler_keeps_ok leds_dev parse st s r empty_response Hst Hr)
                    Hrest).
      unfold final_events in *. cbn [List.filter fst].
      pose proof (led_handler_calls leds_dev parse st s r empty_response) as Hc.
      cbv zeta in Hc.
      destruct Hc as [-> | (-> & _ & dev & cmd & _ & ->)].
      + cbn [List.length].
        destruct (status_eqb s HTTP_SERVER_DATA_FINAL); cbn [List.length]; lia.
      + cbn [status_eqb List.length]. lia. }
  intros st Hst Hevs. split; [apply Hbound; assumption |].
  intro Hzero. specialize (Hbound st Hst Hevs). rewrite Hzero in Hbound.
  destruct (all_calls _); [reflexivity | cbn in Hbound; lia].
Qed.

Lemma led_calls_bounded_by_finals_witness :
  all_calls (deliver (led_handler (Some "leds"%string) json_obj_parse_model)
               led_statics_init
               [(HTTP_SERVER_DATA_MORE, mk_request (encode_led_command led3_on));
                (HTTP_SERVER_DATA_ABORTED, empty_request)]) = [].
Proof.
  assert (Hevs : List.Forall (fun ev : chunk_event => request_ok (snd ev))
                   [(HTTP_SERVER_DATA_MORE, mk_request (encode_led_command led3_on));
                    (HTTP_SERVER_DATA_ABORTED, empty_request)]).
  { repeat (apply List.Forall_cons;
            [apply small_request_ok; vm_compute; discriminate |]).
    apply List.Forall_nil. }
  apply (led_calls_bounded_by_finals (Some "leds"%string) json_obj_parse_model
           [(HTTP_SERVER_DATA_MORE, mk_request (encode_led_command led3_on));
            (HTTP_SERVER_DATA_ABORTED, empty_request)] led_statics_init
           led_statics_init_ok Hevs).
  reflexivity.
Defined.

(** ** The LED handler: edge cases of one event *)

Lemma memcpy_nothing (dst src : list byte) (off : Z) :
  memcpy dst off src 0 = dst.
Proof.
  unfold memcpy. rewrite Z.add_0_r. cbn [Z.to_nat List.firstn app].
  apply List.firstn_skipn.
Qed.

(** X6 -- events without payload.  An event of length 0 is never refused,
    not even when the accumulator is full.  With status [MORE] it changes
    nothing at all; with status [FINAL] it has the bytes accumulated so far
    decoded as they stand and puts the cursor back to 0, the buffer left as
    it was. *)
Theorem empty_event :
  forall (leds_dev : option device)
         (json_obj_parse : list byte -> list json_obj_descr -> Z -> Z * led_command)
         (st : led_statics) (req : http_request_ctx) (resp : http_response_ctx),
    led_statics_ok st -> data_len req = 0 ->
    led_handler leds_dev json_obj_parse st HTTP_SERVER_DATA_MORE req resp
      = {| retval := 0; response := resp; statics := st; calls := [] |}
    /\ led_handler leds_dev json_obj_parse st HTTP_SERVER_DATA_FINAL req resp
      = {| retval := 0; response := resp;
           statics := {| post_payload_buf := post_payload_buf st; cursor := 0 |};
           calls := parse_led_post leds_dev json_obj_parse
                      (post_payload_buf st) (cursor st) |}.
Proof.
  intros leds_dev parse st req resp [Hc _] Hlen.
  unfold sizeof_post_payload_buf in Hc.
  assert (H1 : size_add (data_len req) (cursor st) = cursor st)
    by (rewrite Hlen, size_add_exact; rewrite ?SIZE_MAX_value; lia).
  assert (H2 : size_add (cursor st) (data_len req) = cursor st)
    by (rewrite Hlen, size_add_exact; rewrite ?SIZE_MAX_value; lia).
  unfold led_handler. cbn [status_eqb]. rewrite H1, H2, Hlen, memcpy_nothing.
  destruct (Z.gtb_spec (cursor st) sizeof_post_payload_buf) as [Hgt | _];
    [unfold sizeof_post_payload_buf in Hgt; lia |].
  split; [| reflexivity]. destruct st; reflexivity.
Qed.

Lemma empty_event_witness :
  led_handler None json_obj_parse_model full_statics
    HTTP_SERVER_DATA_MORE empty_request empty_response
  = {| retval := 0; response := empty_response; statics := full_statics;
       calls := [] |}.
Proof.
  apply (empty_event None json_obj_parse_model full_statics empty_request
           empty_response full_statics_ok eq_refl).
Defined.

Lemma firstn_app_exact {A : Type} (l1 l2 : list A) (n : nat) :
  List.length l1 = n -> List.firstn n (l1 ++ l2) = l1.
Proof.
  intros <-. rewrite List.firstn_app, Nat.sub_diag, List.firstn_all.
  cbn. apply List.app_nil_r.
Qed.

Lemma skipn_app_exact {A : Type} (l1 l2 : list A) (n : nat) :
  List.length l1 = n -> List.skipn n (l1 ++ l2) = l2.
Proof.
  intros <-. rewrite List.skipn_app, Nat.sub_diag, List.skipn_all. reflexivity.
Qed.

(** X7 -- an accepted event writes its own range only.  When a [MORE] or
    [FINAL] event fits, the buffer keeps its 32 bytes; the bytes below the
    cursor and the bytes from [cursor + length] on are what they were, and
    the [length] bytes at the cursor are the payload. *)
Theorem accepted_event_frame :
  forall (leds_dev : option device)
         (json_obj_parse : list byte -> list json_obj_descr -> Z -> Z * led_command)
         (st : led_statics) (status : http_data_status)
         (req : http_request_ctx) (resp : http_response_ctx),
    led_statics_ok st -> request_ok req ->
    status <> HTTP_SERVER_DATA_ABORTED ->
    cursor st + data_len req <= sizeof_post_payload_buf ->
    let buf' := post_payload_buf
                  (statics (led_handler leds_dev json_obj_parse st status req resp)) in
    Z.of_nat (List.length buf') = sizeof_post_payload_buf
    /\ List.firstn (Z.to_nat (cursor st)) buf'
       = List.firstn (Z.to_nat (cursor st)) (post_payload_buf st)
    /\ List.firstn (Z.to_nat (data_len req)) (List.skipn (Z.to_nat (cursor st)) buf')
       = data req
    /\ List.skipn (Z.to_nat (cursor st + data_len req)) buf'
       = List.skipn (Z.to_nat (cursor st + data_len req)) (post_payload_buf st).
Proof.
  intros leds_dev parse st status req resp Hst Hreq Hs Hfit. cbv zeta.
  pose proof (led_handler_keeps_ok leds_dev parse st status req resp Hst Hreq)
    as [_ Hlen'].
  split; [exact Hlen' |]. clear Hlen'.
  rewrite led_handler_fits by assumption.
  assert (Hbuf : post_payload_buf
                   (statics
                      (if status_eqb status HTTP_SERVER_DATA_FINAL
                       then {| retval := 0; response := resp;
                               statics := {| post_payload_buf :=
                                               memcpy (post_payload_buf st) (cursor st)
                                                      (data req) (data_len req);
                                             cursor := 0 |};
                               calls := parse_led_post leds_dev parse
                                          (memcpy (post_payload_buf st) (cursor st)
                                                  (data req) (data_len req))
                                          (cursor st + data_len req) |}
                       else {| retval := 0; response := resp;
                               statics := {| post_payload_buf :=
                                               memcpy (post_payload_buf st) (cursor st)
                                                      (data req) (data_len req);
                                             cursor := cursor st + data_len req |};
                               calls := [] |}))
                 = memcpy (post_payload_buf st) (cursor st) (data req) (data_len req))
    by (destruct (status_eqb status HTTP_SERVER_DATA_FINAL); reflexivity).
  rewrite Hbuf. clear Hbuf.
  destruct Hst as [Hc Hb]. destruct Hreq as [Hlen _].
  unfold sizeof_post_payload_buf in *. unfold memcpy.
  assert (Hsrc : List.firstn (Z.to_nat (data_len req)) (data req) = data req)
    by (apply List.firstn_all2; lia).
  rewrite Hsrc.
  assert (HA : List.length (List.firstn (Z.to_nat (cursor st)) (post_payload_buf st))
               = Z.to_nat (cursor st))
    by (rewrite List.length_firstn; lia).
  split; [| split].
  - apply firstn_app_exact, HA.
  - rewrite (skipn_app_exact _ _ _ HA). apply firstn_app_exact. lia.
  - rewrite List.app_assoc. apply skipn_app_exact.
    rewrite List.length_app, HA. lia.
Qed.

Lemma accepted_event_frame_witness :
  List.firstn 4
    (post_payload_buf
       (statics (led_handler None json_obj_parse_model led_statics_init
                   HTTP_SERVER_DATA_MORE ping_request empty_response)))
  = list_byte_of_string "ping".
Proof.
  assert (Hreq : request_ok ping_request) by (apply small_request_ok; cbn; lia).
  assert (Hs : HTTP_SERVER_DATA_MORE <> HTTP_SERVER_DATA_ABORTED) by discriminate.
  destruct (accepted_event_frame None json_obj_parse_model led_statics_init
              HTTP_SERVER_DATA_MORE ping_request empty_response
              led_statics_init_ok Hreq Hs ltac:(vm_compute; discriminate))
    as (_ & _ & Hmid & _).
  exact Hmid.
Defined.

(** ** The LED handler: requests in sequence *)

Lemma body_length_concat (chunks : list (list byte)) (last : list byte) :
  body_length (chunks ++ [last])
    = Z.of_nat (List.length (List.concat chunks ++ last)).
Proof.
  unfold body_length. rewrite List.concat_app. cbn [List.concat].
  now rewrite List.app_nil_r.
Qed.

Lemma request_events_ok (chunks : list (list byte)) (last : list byte) :
  Z.of_nat (List.length (List.concat chunks ++ last)) <= 32 ->
  List.Forall (fun ev => request_ok (snd ev)) (request_events chunks last).
Proof.
  unfold request_events. induction chunks as [| c chunks IH]; intro Hlen.
  - cbn in *. constructor; [| constructor]. now apply small_request_ok.
  - cbn [List.concat] in Hlen. rewrite <- List.app_assoc, List.length_app in Hlen.
    cbn [List.map app]. constructor.
    + cbn [snd]. apply small_request_ok. lia.
    + apply IH. lia.
Qed.

Section LedSequences.

Variable leds_dev : option device.
Variable json_obj_parse : list byte -> list json_obj_descr -> Z -> Z * led_command.

Local Notation "'handler'" := (led_handler leds_dev json_obj_parse).
Local Notation "'parse_post'" := (parse_led_post leds_dev json_obj_parse).

Lemma deliver_keeps_ok (evs : list chunk_event) :
  forall st : led_statics,
    led_statics_ok st ->
    List.Forall (fun ev => request_ok (snd ev)) evs ->
    led_statics_ok (final_statics st (deliver handler st evs)).
Proof.
  induction evs as [| [s r] evs IH]; intros st Hst Hevs.
  - exact Hst.
  - inversion Hevs as [| ? ? Hr Hrest]; subst. cbn [snd] in Hr.
    cbn [deliver]. unfold final_statics. cbn [List.fold_left].
    apply IH; [| exact Hrest].
    apply led_handler_keeps_ok; assumption.
Qed.

(** A request that reaches an accumulator whose cursor is 0. *)
Lemma request_after_reset (chunks : list (list byte)) (last : list byte)
    (st : led_statics) :
  led_statics_ok st -> cursor st = 0 ->
  Z.of_nat (List.length (List.concat chunks ++ last)) <= 32 ->
  let os := deliver handler st (request_events chunks last) in
  let w := List.concat chunks ++ last in
  List.Forall (fun o => retval o = 0) os
  /\ all_calls os = parse_post w (Z.of_nat (List.length w))
  /\ cursor (final_statics st os) = 0
  /\ led_statics_ok (final_statics st os).
Proof.
  intros Hst Hc0 Hlen. cbv zeta.
  assert (Hfit : cursor st + body_length (chunks ++ [last])
                 <= sizeof_post_payload_buf)
    by (rewrite Hc0, body_length_concat; unfold sizeof_post_payload_buf; lia).
  destruct (request_run_fits leds_dev json_obj_parse chunks last st Hst Hfit)
    as (Hall & Hcalls & Hcur).
  assert (Hacc : accumulated st = []) by (unfold accumulated; now rewrite Hc0).
  rewrite Hacc in Hcalls. cbn [app] in Hcalls.
  split; [exact Hall | split; [exact Hcalls | split; [exact Hcur |]]].
  apply deliver_keeps_ok; [exact Hst | apply request_events_ok, Hlen].
Qed.

Lemma led_handler_related (st1 st2 : led_statics) (status : http_data_status)
    (req : http_request_ctx) (resp : http_response_ctx) :
  led_statics_ok st1 -> led_statics_ok st2 -> request_ok req ->
  cursor st1 = cursor st2 -> accumulated st1 = accumulated st2 ->
  let o1 := handler st1 status req resp in
  let o2 := handler st2 status req resp in
  retval o1 = retval o2 /\ calls o1 = calls o2 /\ response o1 = response o2
  /\ cursor (statics o1) = cursor (statics o2)
  /\ accumulated (statics o1) = accumulated (statics o2).
Proof.
  intros Hst1 Hst2 Hreq Hcur Hacc. cbv zeta.
  destruct (status_eqb status HTTP_SERVER_DATA_ABORTED) eqn:Hab.
  - apply status_eqb_eq in Hab. subst status.
    rewrite !led_handler_aborted. cbn. auto.
  - apply status_eqb_neq in Hab.
    destruct (Z_le_gt_dec (cursor st1 + data_len req) sizeof_post_payload_buf)
      as [Hfit | Hover].
    + assert (Hfit2 : cursor st2 + data_len req <= sizeof_post_payload_buf)
        by (rewrite <- Hcur; exact Hfit).
      pose proof (accumulated_fits st1 req Hst1 Hreq Hfit) as Ha1.
      pose proof (accumulated_fits st2 req Hst2 Hreq Hfit2) as Ha2.
      rewrite (led_handler_fits leds_dev json_obj_parse st1) by assumption.
      rewrite (led_handler_fits leds_dev json_obj_parse st2) by assumption.
      destruct (status_eqb status HTTP_SERVER_DATA_FINAL).
      * cbn [retval calls response statics cursor].
        repeat split.
        apply parse_led_post_slice. rewrite Ha1, Ha2, Hacc. reflexivity.
      * cbn [retval calls response statics cursor].
        repeat split; [now rewrite Hcur |].
        unfold accumulated at 1 2. cbn [cursor post_payload_buf].
        rewrite Ha1, Ha2, Hacc. reflexivity.
    + assert (Hover2 : cursor st2 + data_len req > sizeof_post_payload_buf)
        by (rewrite <- Hcur; exact Hover).
      rewrite (led_handler_over leds_dev json_obj_parse st1) by assumption.
      rewrite (led_handler_over leds_dev json_obj_parse st2) by assumption.
      cbn. auto.
Qed.

End LedSequences.

(** X8 -- chunking is transparent.  Two ways of cutting the same body into
    [MORE] chunks and a [FINAL] chunk, delivered to the same accumulator in
    which the body fits, are both accepted event by event and lead to the
    same driver calls. *)
Theorem chunking_transparent :
  forall (leds_dev : option device)
         (json_obj_parse : list byte -> list json_obj_descr -> Z -> Z * led_command)
         (st : led_statics)
         (chunks1 chunks2 : list (list byte)) (last1 last2 : list byte),
    led_statics_ok st ->
    List.concat chunks1 ++ last1 = List.concat chunks2 ++ last2 ->
    cursor st + Z.of_nat (List.length (List.concat chunks1 ++ last1))
      <= sizeof_post_payload_buf ->
    let os1 := deliver (led_handler leds_dev json_obj_parse) st
                 (request_events chunks1 last1) in
    let os2 := deliver (led_handler leds_dev json_obj_parse) st
                 (request_events chunks2 last2) in
    all_calls os1 = all_calls os2
    /\ List.Forall (fun o => retval o = 0) os1
    /\ List.Forall (fun o => retval o = 0) os2.
Proof.
  intros leds_dev parse st chunks1 chunks2 last1 last2 Hst Hsame Hfit. cbv zeta.
  assert (Hfit1 : cursor st + body_length (chunks1 ++ [last1])
                  <= sizeof_post_payload_buf)
    by (now rewrite body_length_concat).
  assert (Hfit2 : cursor st + body_length (chunks2 ++ [last2])
                  <= sizeof_post_payload_buf)
    by (now rewrite body_length_concat, <- Hsame).
  destruct (request_run_fits leds_dev parse chunks1 last1 st Hst Hfit1)
    as (Hall1 & Hcalls1 & _).
  destruct (request_run_fits leds_dev parse chunks2 last2 st Hst Hfit2)
    as (Hall2 & Hcalls2 & _).
  split; [| split; assumption].
  rewrite Hcalls1, Hcalls2, Hsame. reflexivity.
Qed.

Lemma chunking_transparent_witness :
  all_calls (deliver (led_handler (Some "leds"%string) json_obj_parse_model)
               led_statics_init
               (request_events
                  [List.firstn 5 (encode_led_command led3_on)]
                  (List.skipn 5 (encode_led_command led3_on))))
  = all_calls (deliver (led_handler (Some "leds"%string) json_obj_parse_model)
                 led_statics_init
                 (request_events [] (encode_led_command led3_on))).
Proof.
  apply (chunking_transparent (Some "leds"%string) json_obj_parse_model
           led_statics_init
           [List.firstn 5 (encode_led_command led3_on)] []
           (List.skipn 5 (encode_led_command led3_on)) (encode_led_command led3_on)
           led_statics_init_ok eq_refl).
  vm_compute. discriminate.
Defined.

(** X9 -- a decoded command drives the LED it names.  When the decoder
    decodes the body of a request in full to a command, and the request
    reaches an empty accumulator it fits in, the driver is called once:
    [led_on] when [led_state] is true and [led_off] when it is false, on the
    LED whose index is [led_num] converted to [uint32_t] (a negative number
    wraps around); without an LED device there is no call. *)
Theorem decoded_command_actuates :
  forall (leds_dev : option device)
         (json_obj_parse : list byte -> list json_obj_descr -> Z -> Z * led_command)
         (st : led_statics) (chunks : list (list byte)) (last : list byte)
         (cmd : led_command),
    led_statics_ok st -> cursor st = 0 ->
    Z.of_nat (List.length (List.concat chunks ++ last)) <= 32 ->
    json_obj_parse (List.concat chunks ++ last) led_command_descr
      (ARRAY_SIZE led_command_descr)
      = (BIT_MASK (ARRAY_SIZE led_command_descr), cmd) ->
    all_calls (deliver (led_handler leds_dev json_obj_parse) st
                 (request_events chunks last))
      = match leds_dev with
        | Some dev =>
            [ if led_state cmd then led_on dev (led_num cmd mod 2 ^ 32)
              else led_off dev (led_num cmd mod 2 ^ 32) ]
        | None => []
        end.
Proof.
  intros leds_dev parse st chunks last cmd Hst Hc0 Hlen Hdec.
  destruct (request_after_reset leds_dev parse chunks last st Hst Hc0 Hlen)
    as (_ & Hcalls & _).
  rewrite Hcalls.
  rewrite (parse_led_post_accepts leds_dev parse _ _ cmd).
  - unfold actuation, to_uint32. destruct leds_dev; reflexivity.
  - rewrite Nat2Z.id, List.firstn_all. exact Hdec.
Qed.

Lemma decoded_command_actuates_witness :
  List.length (encode_led_command led_minus1_off) = 32%nat
  /\ all_calls (deliver (led_handler (Some "leds"%string) json_obj_parse_model)
                  led_statics_init
                  (request_events
                     [List.firstn 16 (encode_led_command led_minus1_off)]
                     (List.skipn 16 (encode_led_command led_minus1_off))))
     = [led_off "leds"%string 4294967295].
Proof.
  split; [reflexivity |].
  apply (decoded_command_actuates (Some "leds"%string) json_obj_parse_model
           led_statics_init
           [List.firstn 16 (encode_led_command led_minus1_off)]
           (List.skipn 16 (encode_led_command led_minus1_off))
           led_minus1_off led_statics_init_ok eq_refl).
  - vm_compute. discriminate.
  - reflexivity.
Defined.

(** X10 -- bytes above the cursor are never observed.  Two accumulators with
    the same cursor and the same bytes below it, whatever the rest of their
    buffers holds, answer every run of events alike: the same return values,
    the same driver calls, the same responses, event by event. *)
Theorem stale_bytes_unobserved :
  forall (leds_dev : option device)
         (json_obj_parse : list byte -> list json_obj_descr -> Z -> Z * led_command)
         (evs : list chunk_event) (st1 st2 : led_statics),
    led_statics_ok st1 -> led_statics_ok st2 ->
    cursor st1 = cursor st2 -> accumulated st1 = accumulated st2 ->
    List.Forall (fun ev => request_ok (snd ev)) evs ->
    let os1 := deliver (led_handler leds_dev json_obj_parse) st1 evs in
    let os2 := deliver (led_handler leds_dev json_obj_parse) st2 evs in
    List.map retval os1 = List.map retval os2
    /\ List.map calls os1 = List.map calls os2
    /\ List.map response os1 = List.map response os2.
Proof.
  intros leds_dev parse evs. cbv zeta.
  induction evs as [| [s r] evs IH]; intros st1 st2 Hst1 Hst2 Hcur Hacc Hevs.
  - repeat split.
  - inversion Hevs as [| ? ? Hr Hrest]; subst. cbn [snd] in Hr.
    cbn [deliver List.map].
    destruct (led_handler_related leds_dev parse st1 st2 s r empty_response
                Hst1 Hst2 Hr Hcur Hacc) as (Hret & Hcalls & Hresp & Hcur' & Hacc').
    destruct (IH _ _
                (led_handler_keeps_ok leds_dev parse st1 s r empty_response Hst1 Hr)
                (led_handler_keeps_ok leds_dev parse st2 s r empty_response Hst2 Hr)
                Hcur' Hacc' Hrest) as (IHret & IHcalls & IHresp).
    rewrite Hret, Hcalls, Hresp, IHret, IHcalls, IHresp. repeat split.
Qed.

Lemma stale_bytes_unobserved_witness :
  List.map calls
    (deliver (led_handler (Some "leds"%string) json_obj_parse_model)
       led_statics_init
       [(HTTP_SERVER_DATA_FINAL, mk_request (encode_led_command led3_on))])
  = List.map calls
      (deliver (led_handler (Some "leds"%string) json_obj_parse_model)
         {| post_payload_buf := List.repeat x41 32; cursor := 0 |}
         [(HTTP_SERVER_DATA_FINAL, mk_request (encode_led_command led3_on))]).
Proof.
  assert (Hok : led_statics_ok {| post_payload_buf := List.repeat x41 32; cursor := 0 |})
    by (split; cbn; [unfold sizeof_post_payload_buf; lia | reflexivity]).
  assert (Hevs : List.Forall (fun ev : chunk_event => request_ok (snd ev))
                   [(HTTP_SERVER_DATA_FINAL, mk_request (encode_led_command led3_on))]).
  { apply List.Forall_cons; [| apply List.Forall_nil].
    apply small_request_ok. vm_compute. discriminate. }
  apply (stale_bytes_unobserved (Some "leds"%string) json_obj_parse_model _
           led_statics_init
           {| post_payload_buf := List.repeat x41 32; cursor := 0 |}
           led_statics_init_ok Hok eq_refl eq_refl Hevs).
Defined.

(** X11 -- an abort discards the partial body.  After any run of events, an
    [ABORTED] event -- whatever length it carries -- makes the request that
    follows be decoded from its own bytes alone: its driver calls are those
    of [parse_led_post] on the request's body, and each of its events is
    accepted. *)
Theorem abort_discards_partial_body :
  forall (leds_dev : option device)
         (json_obj_parse : list byte -> list json_obj_descr -> Z -> Z * led_command)
         (st : led_statics) (pre : list chunk_event) (aborted : http_request_ctx)
         (chunks : list (list byte)) (last : list byte),
    led_statics_ok st ->
    List.Forall (fun ev => request_ok (snd ev)) pre ->
    Z.of_nat (List.length (List.concat chunks ++ last)) <= 32 ->
    let handler := led_handler leds_dev json_obj_parse in
    let w := List.concat chunks ++ last in
    let os := deliver handler st
                (pre ++ (HTTP_SERVER_DATA_ABORTED, aborted)
                        :: request_events chunks last) in
    all_calls os
      = all_calls (deliver handler st pre)
          ++ parse_led_post leds_dev json_obj_parse w (Z.of_nat (List.length w))
    /\ List.Forall (fun o => retval o = 0)
                   (List.skipn (List.length pre) os)
    /\ cursor (final_statics st os) = 0.
Proof.
  intros leds_dev parse st pre aborted chunks last Hst Hpre Hlen. cbv zeta.
  rewrite deliver_app.
  pose proof (deliver_keeps_ok leds_dev parse pre st Hst Hpre) as Hokp.
  set (osp := deliver (led_handler leds_dev parse) st pre) in *.
  set (stp := final_statics st osp) in *.
  assert (Hlenp : List.length osp = List.length pre).
  { subst osp. clear. revert st.
    induction pre as [| [s r] pre IH]; intro st; cbn; [reflexivity | now rewrite IH]. }
  cbn [deliver]. rewrite led_handler_aborted. cbn [statics].
  set (st0 := {| post_payload_buf := post_payload_buf stp; cursor := 0 |}).
  assert (Hok0 : led_statics_ok st0).
  { destruct Hokp as [_ Hb]. split; cbn; [unfold sizeof_post_payload_buf; lia | exact Hb]. }
  destruct (request_after_reset leds_dev parse chunks last st0 Hok0 eq_refl Hlen)
    as (Hall & Hcalls & Hcur & _).
  split; [| split].
  - rewrite all_calls_app.
    change (all_calls (?o :: ?os)) with (calls o ++ all_calls os).
    cbn [calls app]. now rewrite Hcalls.
  - rewrite <- Hlenp, List.skipn_app, Nat.sub_diag, List.skipn_all.
    cbn [app List.skipn]. constructor; [reflexivity | exact Hall].
  - unfold final_statics. rewrite List.fold_left_app. cbn [List.fold_left statics].
    exact Hcur.
Qed.

Lemma abort_discards_partial_body_witness :
  all_calls (deliver (led_handler (Some "leds"%string) json_obj_parse_model)
               led_statics_init
               ([(HTTP_SERVER_DATA_MORE, ping_request)]
                  ++ (HTTP_SERVER_DATA_ABORTED, empty_request)
                     :: request_events [] (encode_led_command led3_on)))
  = [led_on "leds"%string 3].
Proof.
  assert (Hpre : List.Forall (fun ev : chunk_event => request_ok (snd ev))
                   [(HTTP_SERVER_DATA_MORE, ping_request)]).
  { apply List.Forall_cons; [| apply List.Forall_nil].
    apply small_request_ok. vm_compute. discriminate. }
  apply (abort_discards_partial_body (Some "leds"%string) json_obj_parse_model
           led_statics_init [(HTTP_SERVER_DATA_MORE, ping_request)] empty_request
           [] (encode_led_command led3_on) led_statics_init_ok Hpre).
  vm_compute. discriminate.
Defined.

(** X12 -- a refused event starts the accumulation afresh.  When a [MORE]
    or [FINAL] event is refused with [-ENOMEM], the handler keeps no trace
    of the failure: the events that follow are accepted and decoded as a
    request of their own, so the rest of an oversized body is taken for a
    whole body. *)
Theorem refused_event_starts_afresh :
  forall (leds_dev : option device)
         (json_obj_parse : list byte -> list json_obj_descr -> Z -> Z * led_command)
         (st : led_statics) (status : http_data_status) (req : http_request_ctx)
         (chunks : list (list byte)) (last : list byte),
    led_statics_ok st -> request_ok req ->
    status <> HTTP_SERVER_DATA_ABORTED ->
    cursor st + data_len req > sizeof_post_payload_buf ->
    Z.of_nat (List.length (List.concat chunks ++ last)) <= 32 ->
    let handler := led_handler leds_dev json_obj_parse in
    let w := List.concat chunks ++ last in
    let os := deliver handler st ((status, req) :: request_events chunks last) in
    List.map retval os
      = - ENOMEM :: List.repeat 0 (List.length chunks + 1)
    /\ all_calls os
       = parse_led_post leds_dev json_obj_parse w (Z.of_nat (List.length w)).
Proof.
  intros leds_dev parse st status req chunks last Hst Hreq Hs Hover Hlen. cbv zeta.
  cbn [deliver]. rewrite led_handler_over by assumption. cbn [statics].
  set (st0 := {| post_payload_buf := post_payload_buf st; cursor := 0 |}).
  assert (Hok0 : led_statics_ok st0).
  { destruct Hst as [_ Hb]. split; cbn; [unfold sizeof_post_payload_buf; lia | exact Hb]. }
  destruct (request_after_reset leds_dev parse chunks last st0 Hok0 eq_refl Hlen)
    as (Hall & Hcalls & _).
  split.
  - cbn [List.map retval]. f_equal.
    set (os := deliver (led_handler leds_dev parse) st0 (request_events chunks last))
      in *.
    assert (Hn : List.length os = (List.length chunks + 1)%nat).
    { subst os. unfold request_events. generalize st0. clear.
      induction chunks as [| c chunks IH]; intro st; cbn; [reflexivity | now rewrite IH]. }
    rewrite <- Hn. clear - Hall.
    induction Hall as [| o os Ho _ IH]; cbn; [reflexivity | now rewrite Ho, IH].
  - change (all_calls (?o :: ?os)) with (calls o ++ all_calls os).
    cbn [calls app]. exact Hcalls.
Qed.

Lemma refused_event_starts_afresh_witness :
  List.map retval
    (deliver (led_handler (Some "leds"%string) json_obj_parse_model) full_statics
       ((HTTP_SERVER_DATA_MORE, one_byte_chunk)
          :: request_events [] (encode_led_command led3_on)))
    = [- ENOMEM; 0]
  /\ all_calls
       (deliver (led_handler (Some "leds"%string) json_obj_parse_model) full_statics
          ((HTTP_SERVER_DATA_MORE, one_byte_chunk)
             :: request_events [] (encode_led_command led3_on)))
     = [led_on "leds"%string 3].
Proof.
  assert (Hone : request_ok one_byte_chunk)
    by (apply small_request_ok; cbn; lia).
  assert (Hs : HTTP_SERVER_DATA_MORE <> HTTP_SERVER_DATA_ABORTED) by discriminate.
  apply (refused_event_starts_afresh (Some "leds"%string) json_obj_parse_model
           full_statics HTTP_SERVER_DATA_MORE one_byte_chunk
           [] (encode_led_command led3_on) full_statics_ok Hone Hs eq_refl).
  vm_compute. discriminate.
Defined.

(** X13 -- requests in a row are decoded one by one.  Two requests, each
    fitting the accumulator, delivered one after the other to an empty
    accumulator are accepted event by event, and the driver calls are those
    of the first body followed by those of the second. *)
Theorem back_to_back_requests :
  forall (leds_dev : option device)
         (json_obj_parse : list byte -> list json_obj_descr -> Z -> Z * led_command)
         (st : led_statics)
         (chunks1 chunks2 : list (list byte)) (last1 last2 : list byte),
    led_statics_ok st -> cursor st = 0 ->
    Z.of_nat (List.length (List.concat chunks1 ++ last1)) <= 32 ->
    Z.of_nat (List.length (List.concat chunks2 ++ last2)) <= 32 ->
    let w1 := List.concat chunks1 ++ last1 in
    let w2 := List.concat chunks2 ++ last2 in
    let os := deliver (led_handler leds_dev json_obj_parse) st
                (request_events chunks1 last1 ++ request_events chunks2 last2) in
    List.Forall (fun o => retval o = 0) os
    /\ all_calls os
       = parse_led_post leds_dev json_obj_parse w1 (Z.of_nat (List.length w1))
           ++ parse_led_post leds_dev json_obj_parse w2 (Z.of_nat (List.length w2)).
Proof.
  intros leds_dev parse st chunks1 chunks2 last1 last2 Hst Hc0 Hlen1 Hlen2. cbv zeta.
  rewrite deliver_app.
  destruct (request_after_reset leds_dev parse chunks1 last1 st Hst Hc0 Hlen1)
    as (Hall1 & Hcalls1 & Hcur1 & Hok1).
  destruct (request_after_reset leds_dev parse chunks2 last2 _ Hok1 Hcur1 Hlen2)
    as (Hall2 & Hcalls2 & _).
  split.
  - apply List.Forall_app. split; assumption.
  - rewrite all_calls_app, Hcalls1, Hcalls2. reflexivity.
Qed.

Lemma back_to_back_requests_witness :
  all_calls (deliver (led_handler (Some "leds"%string) json_obj_parse_model)
               led_statics_init
               (request_events [] (encode_led_command led3_on)
                  ++ request_events [] (encode_led_command led_minus1_off)))
  = [led_on "leds"%string 3; led_off "leds"%string 4294967295].
Proof.
  apply (back_to_back_requests (Some "leds"%string) json_obj_parse_model
           led_statics_init [] [] (encode_led_command led3_on)
           (encode_led_command led_minus1_off) led_statics_init_ok eq_refl).
  - vm_compute. discriminate.
  - vm_compute. discriminate.
Defined.

(** ** Start-up and resource table *)

(** X14 -- error propagation in [init_usb].  [init_usb] returns 0 exactly
    when the USB stack is configured out, or the device was obtained and
    [usbd_enable] returned 0; it returns [-ENODEV] when no device was
    obtained, without calling [usbd_enable], and hands back the value of
    [usbd_enable] when that is not 0.  The network configuration is started
    only on the successful path of a build with the USB stack. *)
Theorem init_usb_result :
  forall (config : bool) (dev : option usbd_context) (enable : usbd_context -> Z),
    (fst (init_usb config dev enable) = 0
     <-> config = false \/ exists ctx, dev = Some ctx /\ enable ctx = 0)
    /\ (List.In call_net_config_init_app (snd (init_usb config dev enable))
        <-> config = true /\ exists ctx, dev = Some ctx /\ enable ctx = 0)
    /\ (config = true -> dev = None ->
        fst (init_usb config dev enable) = - ENODEV
        /\ forall ctx, ~ List.In (call_usbd_enable ctx)
                         (snd (init_usb config dev enable)))
    /\ (config = true -> forall ctx, dev = Some ctx -> enable ctx <> 0 ->
        fst (init_usb config dev enable) = enable ctx).
Proof.
  intros config dev enable. unfold init_usb.
  destruct config.
  - destruct dev as [ctx |].
    + destruct (Z.eqb_spec (enable ctx) 0) as [Hz | Hnz]; cbn [negb fst snd].
      * split; [| split; [| split]].
        -- split; [intros _; right; exists ctx; auto | reflexivity].
        -- split; [intros _; split; [reflexivity | exists ctx; auto] |].
           intros _. cbn. auto.
        -- intros _ Hnone. discriminate.
        -- intros _ ctx' Hsome Hne. injection Hsome as <-. contradiction.
      * split; [| split; [| split]].
        -- split.
           ++ intro H. contradiction.
           ++ intros [Hf | (ctx' & Hsome & Hz)]; [discriminate |].
              injection Hsome as <-. contradiction.
        -- split.
           ++ cbn. intros [H | [H | []]]; discriminate.
           ++ intros (_ & ctx' & Hsome & Hz). injection Hsome as <-. contradiction.
        -- intros _ Hnone. discriminate.
        -- intros _ ctx' Hsome _. injection Hsome as <-. reflexivity.
    + cbn [fst snd]. split; [| split; [| split]].
      * split.
        -- unfold ENODEV. discriminate.
        -- intros [Hf | (ctx & Hsome & _)]; discriminate.
      * split.
        -- cbn. intros [H | []]. discriminate.
        -- intros (_ & ctx & Hsome & _). discriminate.
      * intros _ _. split; [reflexivity |].
        intros ctx. cbn. intros [H | []]. discriminate.
      * intros _ ctx Hsome. discriminate.
  - cbn [fst snd]. split; [| split; [| split]].
    + split; [intros _; now left | reflexivity].
    + split; [intros [] | intros [H _]; discriminate].
    + intros H. discriminate.
    + intros H. discriminate.
Qed.

Lemma init_usb_result_witness :
  fst (init_usb true None (fun _ => 0)) = - ENODEV
  /\ fst (init_usb true (Some "usbd"%string) (fun _ => -5)) = -5.
Proof.
  split.
  - apply (init_usb_result true None (fun _ => 0)); reflexivity.
  - destruct (init_usb_result true (Some "usbd"%string) (fun _ => -5))
      as (_ & _ & _ & Herr).
    apply (Herr eq_refl "usbd"%string eq_refl). discriminate.
Defined.

Lemma BIT_testbit (a m : Z) :
  0 <= a -> Z.testbit (BIT a) m = true <-> m = a.
Proof.
  intro Ha. unfold BIT. rewrite Z.shiftl_1_l, Z.pow2_bits_eqb by exact Ha.
  rewrite Z.eqb_eq. split; congruence.
Qed.

(** X15 -- methods the resources accept.  Bit [m] of a resource's method
    mask is set exactly for these methods: [GET] and [POST] for the echo
    resource, [POST] alone for the LED resource, [GET] alone for the uptime
    resource and for the two static resources. *)
Theorem resource_methods :
  forall (HTTP_GET HTTP_POST m : Z),
    0 <= HTTP_GET -> 0 <= HTTP_POST ->
    (Z.testbit (bitmask_of_supported_http_methods
                  (echo_resource_detail HTTP_GET HTTP_POST)) m = true
     <-> m = HTTP_GET \/ m = HTTP_POST)
    /\ (Z.testbit (bitmask_of_supported_http_methods
                     (led_resource_detail HTTP_POST)) m = true
        <-> m = HTTP_POST)
    /\ (Z.testbit (bitmask_of_supported_http_methods
                     (uptime_resource_detail HTTP_GET)) m = true
        <-> m = HTTP_GET)
    /\ (Z.testbit (bitmask_of_supported_http_methods
                     (index_html_gz_resource_detail HTTP_GET)) m = true
        <-> m = HTTP_GET)
    /\ (Z.testbit (bitmask_of_supported_http_methods
                     (main_js_gz_resource_detail HTTP_GET)) m = true
        <-> m = HTTP_GET).
Proof.
  intros GET POST m Hg Hp. cbn [bitmask_of_supported_http_methods
    echo_resource_detail led_resource_detail uptime_resource_detail
    index_html_gz_resource_detail main_js_gz_resource_detail].
  split; [| repeat split; intro H; apply (BIT_testbit _ m); assumption].
  rewrite Z.lor_spec, Bool.orb_true_iff.
  rewrite (BIT_testbit GET m Hg), (BIT_testbit POST m Hp). reflexivity.
Qed.

Lemma resource_methods_witness :
  Z.testbit (bitmask_of_supported_http_methods (echo_resource_detail 1 3)) 3 = true
  /\ Z.testbit (bitmask_of_supported_http_methods (led_resource_detail 3)) 1 = false.
Proof.
  split.
  - destruct (resource_methods 1 3 3 ltac:(lia) ltac:(lia)) as (Hecho & _).
    apply Hecho. now right.
  - destruct (resource_methods 1 3 1 ltac:(lia) ltac:(lia)) as (_ & Hled & _).
    destruct (Z.testbit (bitmask_of_supported_http_methods (led_resource_detail 3)) 1);
      [| reflexivity].
    destruct Hled as [Hled _]. specialize (Hled eq_refl). discriminate.
Defined.

(** X16 -- reassembly.  A run of [MORE] chunks that fits the room left in
    the accumulator is accepted chunk by chunk without any driver call, and
    leaves the accumulator holding what it held followed by the chunks in
    order, the cursor advanced by their total length. *)
Theorem more_chunks_reassemble :
  forall (leds_dev : option device)
         (json_obj_parse : list byte -> list json_obj_descr -> Z -> Z * led_command)
         (chunks : list (list byte)) (st : led_statics),
    led_statics_ok st ->
    cursor st + body_length chunks <= sizeof_post_payload_buf ->
    let os := deliver (led_handler leds_dev json_obj_parse) st
                (List.map (fun c => (HTTP_SERVER_DATA_MORE, mk_request c)) chunks) in
    List.Forall (fun o => retval o = 0 /\ calls o = []) os
    /\ cursor (final_statics st os) = cursor st + body_length chunks
    /\ accumulated (final_statics st os) = accumulated st ++ List.concat chunks.
Proof.
  intros leds_dev parse chunks st Hst Hfit. cbv zeta.
  destruct (more_run_fits leds_dev parse chunks st Hst Hfit)
    as (Hall & _ & Hcur & Hacc).
  split; [exact Hall | split; [exact Hcur | exact Hacc]].
Qed.

Lemma more_chunks_reassemble_witness :
  accumulated
    (final_statics led_statics_init
       (deliver (led_handler None json_obj_parse_model) led_statics_init
          (List.map (fun c => (HTTP_SERVER_DATA_MORE, mk_request c))
             [list_byte_of_string "pi"; list_byte_of_string "ng"])))
  = list_byte_of_string "ping".
Proof.
  apply (more_chunks_reassemble None json_obj_parse_model
           [list_byte_of_string "pi"; list_byte_of_string "ng"] led_statics_init
           led_statics_init_ok).
  vm_compute. discriminate.
Defined.
